(** * ImageProcess01: the grayscale pipeline of [dash_app/app.py]

    A shallow embedding of the image-processing functions of the Dash
    application (histogram analysis, level adjustment, thresholding, the
    two-threshold difference masks, the crop callback and the results
    table), with the properties its specification states about them.

    Conventions.
    - A grayscale [ndarray] of dtype [uint8] is a list of rows of [Z]; the
      predicate [uint8_grid] says that every sample lies in [0, 255].
    - Python integers are [Z]; binary64 values are the kernel's [float].
    - A Python exception is [None] in an [option] result. *)

From Stdlib Require Import Ascii String DecimalString DecimalZ DecimalPos.
From Stdlib Require Import ZArith QArith Qround Qminmax List Bool Lia.
From Stdlib Require Import Floats.
Import ListNotations.
Local Open Scope Z_scope.

(** ** Histogram analysis *)

(** [sum(hist)] *)
Definition sum (l : list Z) : Z := fold_right Z.add 0 l.

(** The test [cum / total >= 0.01] of [analyse_histogram].

    [cum / total] is Python's true division of two integers: the binary64
    value nearest to the exact quotient (ties to even).  The literal [0.01]
    is the binary64 value [d = 5764607523034235 * 2^-59], whose significand is
    odd; its predecessor is [d - 2^-59].  Rounding to nearest is monotone, and
    the reals that round to [d] or above are exactly those strictly above the
    midpoint [(2 * 5764607523034235 - 1) * 2^-60] (the midpoint itself is a tie
    and goes to the even predecessor).  Hence the test holds exactly when
    [cum / total > 11529215046068469 / 2^60], which is written here without
    division; [total] is non-zero where the test is evaluated. *)
Definition tail_midpoint : Z := 11529215046068469.

Definition ge_one_percent (cum total : Z) : bool :=
  if 0 <? total
  then tail_midpoint * total <? cum * 2 ^ 60
  else cum * 2 ^ 60 <? tail_midpoint * total.

(** The same test on the kernel's binary64 numbers, for operands below [2^53]
    (which convert exactly, so that the IEEE division is the correctly rounded
    quotient).  It is used to cross-check [ge_one_percent] on samples. *)
Definition Z2f (z : Z) : float :=
  if z <? 0 then PrimFloat.opp (PrimFloat.of_uint63 (Uint63.of_Z (- z)))
  else PrimFloat.of_uint63 (Uint63.of_Z z).

Definition one_percent : float := 0x1.47ae147ae147bp-7%float.

Definition ge_one_percent_b64 (cum total : Z) : bool :=
  PrimFloat.leb one_percent (PrimFloat.div (Z2f cum) (Z2f total)).

(** The dictionary returned by [analyse_histogram]. *)
Record analysis : Type := mk_analysis {
  skewed : bool;
  min_val : Z;
  max_val : Z
}.

(** One percentile loop of [analyse_histogram]:
    [for i in idxs: cum += hist[i]; if cum / total >= 0.01: val = i; break].
    [dflt] is the value the variable holds when the loop ends without a
    [break]; [None] is the [IndexError] of [hist[i]]. *)
Fixpoint percentile_scan (hist : list Z) (total : Z) (idxs : list nat)
    (cum dflt : Z) : option Z :=
  match idxs with
  | [] => Some dflt
  | i :: rest =>
      match nth_error hist i with
      | None => None
      | Some h =>
          let cum := cum + h in
          if ge_one_percent cum total then Some (Z.of_nat i)
          else percentile_scan hist total rest cum dflt
      end
  end.

(** [range(256)] and [range(255, -1, -1)] *)
Definition range_up : list nat := seq 0 256.
Definition range_down : list nat := rev (seq 0 256).

Definition analyse_histogram (hist : list Z) : option analysis :=
  let total := sum hist in
  if total =? 0 then Some (mk_analysis false 0 255)
  else
    match percentile_scan hist total range_up 0 0 with
    | None => None
    | Some mn =>
        match percentile_scan hist total range_down 0 255 with
        | None => None
        | Some mx => Some (mk_analysis (mx - mn <? 200) mn mx)
        end
    end.

(** ** Grids *)

(** A two-dimensional [ndarray]: the list of its rows. *)
Definition grid : Type := list (list Z).

Definition uint8 (v : Z) : Prop := 0 <= v <= 255.
Definition uint8_grid (g : grid) : Prop := Forall (Forall uint8) g.

(** [arr.shape == (h, w)] *)
Definition has_shape (g : grid) (h w : nat) : Prop :=
  length g = h /\ Forall (fun row => length row = w) g.

(** An element-wise operation of numpy on a two-dimensional array. *)
Definition map_grid {A B : Type} (f : A -> B) (g : list (list A)) :
    list (list B) :=
  map (map f) g.

(** Integers from [lo], [n] of them. *)
Fixpoint zrange (lo : Z) (n : nat) : list Z :=
  match n with
  | O => []
  | S n => lo :: zrange (lo + 1) n
  end.

(** ** Level adjustment *)

(** [.astype(np.uint8)] on a binary64 value: the C conversion, which drops the
    fractional part, kept to eight bits.  The value of a finite float is read
    off its decomposition [Prim2SF]: sign [s], significand [m], exponent [e],
    for the number [m * 2^e]; [Z.shiftl m e] is [m * 2^e] when [e >= 0] and
    the quotient of [m] by [2^(-e)] rounded down when [e < 0]. *)
Definition float_to_uint8 (x : float) : Z :=
  match Prim2SF x with
  | S754_finite s m e =>
      let a := Z.shiftl (Z.pos m) e in
      (if s then - a else a) mod 256
  | _ => 0
  end.

(** [np.clip(x, lo, hi)], that is [minimum(maximum(x, lo), hi)]. *)
Definition clip (x lo hi : float) : float :=
  let y := if PrimFloat.ltb x lo then lo else x in
  if PrimFloat.ltb hi y then hi else y.

(** [(v - mn) / r * 255] on one sample already converted to [float64]. *)
Definition stretch (d : float) (r : Z) : float :=
  PrimFloat.mul (PrimFloat.div d (Z2f r)) (Z2f 255).

(** What [apply_level_adjustment] does to one sample [v] when [r > 0]. *)
Definition level_value (v mn r : Z) : Z :=
  float_to_uint8
    (clip (stretch (PrimFloat.sub (Z2f v) (Z2f mn)) r) (Z2f 0) (Z2f 255)).

Definition apply_level_adjustment (arr : grid) (mn mx : Z) : grid :=
  let r := mx - mn in
  if r <=? 0 then arr
  else map_grid (fun v => level_value v mn r) arr.

(** The affine map in exact integer arithmetic, the quotient rounded down. *)
Definition stretch_floor (v mn mx : Z) : Z :=
  Z.max 0 (Z.min 255 ((v - mn) * 255 / (mx - mn))).

(** The affine map with the quotient rounded to the nearest integer (halves
    upwards), as the specification words it. *)
Definition stretch_nearest (v mn mx : Z) : Z :=
  Z.max 0 (Z.min 255 ((2 * (v - mn) * 255 + (mx - mn)) / (2 * (mx - mn)))).

(** The test made on every difference [x] in [-255, 255] and every range [r]
    in [1, 255]: the scaled value falls where the exact quotient says. *)
Definition stretch_check_one (x r : Z) : bool :=
  let y := stretch (Z2f x) r in
  if x <? 0 then PrimFloat.ltb y (Z2f 0)
  else if r <? x then
    negb (PrimFloat.ltb y (Z2f 0)) && PrimFloat.ltb (Z2f 255) y
  else float_to_uint8 (clip y (Z2f 0) (Z2f 255)) =? x * 255 / r.

(** ** Thresholding and the difference masks *)

(** [np.where(arr <= t, np.uint8(0), np.uint8(255))] *)
Definition apply_threshold (arr : grid) (t : Z) : grid :=
  map_grid (fun v => if v <=? t then 0 else 255) arr.

(** A boolean array, as [arr == c] and [m1 & m2] build them. *)
Definition mask : Type := list (list bool).

Definition eq_scalar (arr : grid) (c : Z) : mask :=
  map_grid (fun v => v =? c) arr.

Definition mask_and (m1 m2 : mask) : mask :=
  map (fun rows =>
         map (fun bs => fst bs && snd bs) (combine (fst rows) (snd rows)))
      (combine m1 m2).

(** [int(np.sum(m))]: the number of [True] entries. *)
Definition count_true (m : mask) : Z :=
  sum (map (fun row => sum (map (fun b : bool => if b then 1 else 0) row)) m).

Definition count_white (arr : grid) : Z := count_true (eq_scalar arr 255).

(** The masks of [on_threshold]:
    [mask_diff = (bin1 == 255) & (bin2 == 0)],
    [mask_both_white = (bin1 == 255) & (bin2 == 255)],
    [mask_both_black = (bin1 == 0) & (bin2 == 0)]. *)
Definition mask_diff (bin1 bin2 : grid) : mask :=
  mask_and (eq_scalar bin1 255) (eq_scalar bin2 0).
Definition mask_both_white (bin1 bin2 : grid) : mask :=
  mask_and (eq_scalar bin1 255) (eq_scalar bin2 255).
Definition mask_both_black (bin1 bin2 : grid) : mask :=
  mask_and (eq_scalar bin1 0) (eq_scalar bin2 0).

(** The fourth joint class, white under the second cutoff only.  The callback
    leaves these pixels at their gray value and builds no mask for them; the
    mask is written after the other three. *)
Definition mask_white2_only (bin1 bin2 : grid) : mask :=
  mask_and (eq_scalar bin1 0) (eq_scalar bin2 255).

(** The binary images and the three counts that [on_threshold] returns for
    the stored adjusted image and histogram; with either of them missing or
    empty every output is [no_update], here [None].  The colour composite of
    the difference image is display only and is left out. *)
Record threshold_view : Type := mk_threshold_view {
  bin1_img : grid;
  bin2_img : grid;
  white_count_1 : Z;
  white_count_2 : Z;
  diff_count : Z
}.

Definition on_threshold (t1 t2 : Z) (adjusted : option grid)
    (histogram : option (list Z)) : option threshold_view :=
  match adjusted, histogram with
  | Some adjusted, Some (_ :: _) =>
      let bin1 := apply_threshold adjusted t1 in
      let bin2 := apply_threshold adjusted t2 in
      Some (mk_threshold_view bin1 bin2 (count_white bin1) (count_white bin2)
              (count_true (mask_diff bin1 bin2)))
  | _, _ => None
  end.

(** The sample at row [i], column [j]. *)
Definition pixel (g : grid) (i j : nat) : option Z :=
  match nth_error g i with
  | Some row => nth_error row j
  | None => None
  end.

(** ** Median filter *)

(** [scipy.ndimage.median_filter(arr, size=k)] is a library function; it is
    modelled from its documented behaviour on a two-dimensional array: the
    footprint is the [k] by [k] square, whose centre is the position [k // 2]
    along each axis; samples beyond the border are taken by reflection about
    the edge of the last pixel (mode [reflect]: [d c b a | a b c d | d c b a]);
    the result at a position is the element of rank [(k * k) // 2] of the
    sorted window.  A size below 1 leaves no footprint and raises an
    exception. *)
Definition reflect_index (p n : Z) : Z :=
  let q := p mod (2 * n) in
  if q <? n then q else 2 * n - 1 - q.

Definition sample_reflect (arr : grid) (h w i j : Z) : Z :=
  nth (Z.to_nat (reflect_index j w))
      (nth (Z.to_nat (reflect_index i h)) arr []) 0.

Definition window (arr : grid) (h w k i j : Z) : list Z :=
  let offsets := zrange (- (k / 2)) (Z.to_nat k) in
  flat_map (fun di =>
              map (fun dj => sample_reflect arr h w (i + di) (j + dj)) offsets)
           offsets.

Fixpoint insert_sorted (x : Z) (l : list Z) : list Z :=
  match l with
  | [] => [x]
  | y :: l' => if x <=? y then x :: l else y :: insert_sorted x l'
  end.

Definition sort (l : list Z) : list Z := fold_right insert_sorted [] l.

Definition rank_select (l : list Z) (rank : nat) : Z := nth rank (sort l) 0.

Definition median_filter (arr : grid) (k : Z) : option grid :=
  if k <? 1 then None
  else
    let h := Z.of_nat (length arr) in
    Some (map (fun i =>
                 let w := Z.of_nat (length (nth (Z.to_nat i) arr [])) in
                 map (fun j =>
                        rank_select (window arr h w k i j)
                                    (Z.to_nat (k * k / 2)))
                     (zrange 0 (Z.to_nat w)))
              (zrange 0 (length arr))).

(** [median_filter(arr, size=kernel_size).astype(np.uint8)] *)
Definition apply_median (arr : grid) (kernel_size : Z) : option grid :=
  option_map (map_grid (fun v => v mod 256)) (median_filter arr kernel_size).

(** ** Histogram *)

(** [np.bincount(arr.flatten(), minlength=256).tolist()] on non-negative
    samples: one bin for each level up to the largest sample, and at least
    256 of them. *)
Definition compute_histogram (arr : grid) : list Z :=
  let flat := concat arr in
  let bins := Z.max 256 (fold_right Z.max 0 flat + 1) in
  map (fun level => Z.of_nat (count_occ Z.eq_dec flat level))
      (zrange 0 (Z.to_nat bins)).

(** ** The crop callback *)

(** [round(x)] on a number: the nearest integer, halves to the even one. *)
Definition py_round (x : Q) : Z :=
  let f := Qfloor x in
  match Qcompare ((x - inject_Z f) * 2) 1 with
  | Lt => f
  | Gt => f + 1
  | Eq => if Z.even f then f else f + 1
  end.

(** The rectangle kept in [store-crop-coords]. *)
Record crop_coords : Type := mk_crop {
  crop_x0 : Q; crop_y0 : Q; crop_x1 : Q; crop_y1 : Q
}.

(** The bounds [(x0, x1, y0, y1)] that [on_apply] computes for an image of
    [h] rows and [w] columns. *)
Definition crop_box (crop : crop_coords) (h w : Z) : Z * Z * Z * Z :=
  let x0 := Z.max 0 (py_round (Qmin (crop_x0 crop) (crop_x1 crop))) in
  let x1 := Z.min w (py_round (Qmax (crop_x0 crop) (crop_x1 crop))) in
  let y0 := Z.max 0 (py_round (Qmin (crop_y0 crop) (crop_y1 crop))) in
  let y1 := Z.min h (py_round (Qmax (crop_y0 crop) (crop_y1 crop))) in
  (x0, x1, y0, y1).

(** [a[lo:hi]] for [0 <= lo]. *)
Definition slice {A : Type} (l : list A) (lo hi : Z) : list A :=
  firstn (Z.to_nat (hi - lo)) (skipn (Z.to_nat lo) l).

(** [original[y0:y1, x0:x1]] *)
Definition crop_grid (original : grid) (x0 x1 y0 y1 : Z) : grid :=
  map (fun row => slice row x0 x1) (slice original y0 y1).

(** The stages of the pipeline that the callback may call. *)
Inductive stage : Type :=
  | MedianFilter
  | HistogramCount
  | HistogramAnalysis
  | LevelAdjustment.

(** A computation that records the stages it calls; [None] is an exception
    raised by a stage, which ends the computation. *)
Definition traced (A : Type) : Type := list stage * option A.

Definition ret {A : Type} (x : A) : traced A := ([], Some x).

Definition bind {A B : Type} (m : traced A) (f : A -> traced B) : traced B :=
  match m with
  | (log, None) => (log, None)
  | (log, Some x) => let (log', r) := f x in (log ++ log', r)
  end.

Definition call {A : Type} (s : stage) (result : option A) : traced A :=
  ([s], result).

Notation "x <- m ;; k" := (bind m (fun x => k))
  (at level 61, m at next level, right associativity).

(** The texts shown beside the images. *)
Inductive adjustment_note : Type :=
  | NoteSkewed (mn mx : Z)
  | NoteSpread.

(** The seventeen outputs of [on_apply], in the order of the callback. *)
Record apply_outputs : Type := mk_apply_outputs {
  store_adjusted : grid;
  store_histogram : list Z;
  store_histogram_raw : list Z;
  cropped_img : grid;
  filtered_img : grid;
  adjusted_img : grid;
  filtered_level_img : grid;
  filter_status : Z * Z * Z;
  adjustment_info : adjustment_note;
  adjustment_warning : bool;
  histogram_raw_figure : list Z;
  histogram_figure : list Z;
  section_filter_shown : bool;
  section_level_shown : bool;
  section_threshold_shown : bool;
  t1_slider : Z;
  t2_slider : Z
}.

(** What a callback hands back to Dash: [no_update] for every output, an
    exception, or a value for every output. *)
Inductive response (O : Type) : Type :=
  | NoUpdate
  | Raised
  | Updated (outputs : O).
Arguments NoUpdate {O}.
Arguments Raised {O}.
Arguments Updated {O} outputs.

(** The effect of a response on the properties the callback writes: only a
    full set of values replaces them. *)
Definition dash_update {O : Type} (current : O) (r : response O) : O :=
  match r with
  | Updated outputs => outputs
  | NoUpdate | Raised => current
  end.

Definition finish {O : Type} (m : traced O) : list stage * response O :=
  match m with
  | (log, Some outputs) => (log, Updated outputs)
  | (log, None) => (log, Raised)
  end.

Definition on_apply (n_clicks : Z) (original : option grid)
    (crop : option crop_coords) (kernel_size : Z) :
    list stage * response apply_outputs :=
  match original, crop with
  | Some original, Some crop =>
      let h := Z.of_nat (length original) in
      let w := Z.of_nat (length (hd [] original)) in
      let '(x0, x1, y0, y1) := crop_box crop h w in
      if (x1 - x0 <? 2) || (y1 - y0 <? 2) then ([], NoUpdate)
      else
        let cropped := crop_grid original x0 x1 y0 y1 in
        finish (
          filtered <- call MedianFilter (apply_median cropped kernel_size) ;;
          raw_hist <- call HistogramCount (Some (compute_histogram filtered)) ;;
          analysis <- call HistogramAnalysis (analyse_histogram raw_hist) ;;
          adjusted <-
            (if skewed analysis
             then call LevelAdjustment
                    (Some (apply_level_adjustment filtered
                             (min_val analysis) (max_val analysis)))
             else ret filtered) ;;
          histogram <-
            call HistogramCount (Some (compute_histogram adjusted)) ;;
          ret (mk_apply_outputs
                 adjusted histogram raw_hist cropped filtered adjusted filtered
                 (kernel_size, x1 - x0, y1 - y0)
                 (if skewed analysis
                  then NoteSkewed (min_val analysis) (max_val analysis)
                  else NoteSpread)
                 (skewed analysis)
                 raw_hist histogram true true true 128 200))
  | _, _ => ([], NoUpdate)
  end.

(** ** The results table *)

(** [str(n)] on an integer. *)
Definition py_str (n : Z) : string := NilZero.string_of_int (Z.to_int n).

(** The digits of a number from the last to the first, a comma put after
    every third one that has a successor; [k] counts the digits of the group
    being filled. *)
Fixpoint group_rev (digits : list ascii) (k : nat) : list ascii :=
  match digits with
  | [] => []
  | c :: rest =>
      if Nat.eqb k 3 then ","%char :: c :: group_rev rest 1
      else c :: group_rev rest (S k)
  end.

(** The format [f"{n:,}"]: the decimal digits in groups of three. *)
Definition format_commas (n : Z) : string :=
  let digits := list_ascii_of_string (py_str (Z.abs n)) in
  let grouped := string_of_list_ascii (rev (group_rev (rev digits) 0)) in
  if n <? 0 then String "-"%char grouped else grouped.

Definition not_comma (c : ascii) : bool := negb (Ascii.eqb c ","%char).

(** [s.replace(",", "")] *)
Definition remove_commas (s : string) : string :=
  string_of_list_ascii (filter not_comma (list_ascii_of_string s)).

(** [int(s)] on a string of an optional minus sign and decimal digits;
    [None] is the [ValueError]. *)
Definition py_int (s : string) : option Z :=
  option_map Z.of_int (NilZero.int_of_string s).

(** The exact value [m * 2^e] times 100, rounded to the nearest integer,
    halves to the even one. *)
Definition hundredths (m : positive) (e : Z) : Z :=
  if 0 <=? e then Z.pos m * 100 * 2 ^ e
  else
    let d := 2 ^ (- e) in
    let q := Z.pos m * 100 / d in
    let r := Z.pos m * 100 mod d in
    match 2 * r ?= d with
    | Lt => q
    | Gt => q + 1
    | Eq => if Z.even q then q else q + 1
    end.

Definition two_digits (k : Z) : string :=
  if k <? 10 then String "0"%char (py_str k) else py_str k.

(** The format [f"{x:.2f}"] on a binary64 value: its exact value rounded to
    two decimals. *)
Definition format_2f (x : float) : string :=
  match Prim2SF x with
  | S754_zero s => ((if s then "-" else "") ++ "0.00")%string
  | S754_infinity s => if s then "-inf"%string else "inf"%string
  | S754_nan => "nan"%string
  | S754_finite s m e =>
      let n := hundredths m e in
      ((if s then "-" else "") ++ py_str (n / 100) ++ "."
         ++ two_digits (n mod 100))%string
  end.

(** A row of the table, every field as the text shown. *)
Record result_row : Type := mk_row {
  row_filename : string;
  row_count1 : string;
  row_count2 : string;
  row_diff : string;
  row_ratio : string
}.

(** [diff_val / c1 * 100 if c1 > 0 else 0.0], for counts below [2^53]
    (these convert exactly, so the binary64 division is Python's true
    division of the two integers). *)
Definition ratio_val (diff_val c1 : Z) : float :=
  if 0 <? c1
  then PrimFloat.mul (PrimFloat.div (Z2f diff_val) (Z2f c1)) (Z2f 100)
  else Z2f 0.

(** The placeholder shown before any count exists: an em dash, in UTF-8. *)
Definition em_dash : string :=
  String "226"%char (String "128"%char (String "148"%char EmptyString)).

(** The outputs of [on_add_table]: the table data, the stored table and the
    [disabled] flag of the export button. *)
Definition table_outputs : Type := list result_row * list result_row * bool.

Definition on_add_table (n_clicks : Z) (filename : option string) (t1 t2 : Z)
    (cnt1 cnt2 : string) (table_data : option (list result_row)) :
    response table_outputs :=
  let no_filename :=
    match filename with
    | None => true
    | Some name => String.eqb name ""
    end in
  if no_filename || String.eqb cnt1 em_dash then NoUpdate
  else
    match filename with
    | None => NoUpdate
    | Some name =>
        (* [table_data or []]: a missing table is the empty one (and an
           empty one is replaced by an empty one) *)
        let table_data :=
          match table_data with
          | Some rows => rows
          | None => []
          end in
        match py_int (remove_commas cnt1) with
        | None => Raised
        | Some c1 =>
            match py_int (remove_commas cnt2) with
            | None => Raised
            | Some c2 =>
                let diff_val := c1 - c2 in
                let table_data :=
                  table_data ++
                    [mk_row name (format_commas c1) (format_commas c2)
                       (format_commas diff_val)
                       (format_2f (ratio_val diff_val c1))] in
                Updated (table_data, table_data, false)
            end
        end
    end.

(** The sum of [f] over the samples of a grid, and the count of a truth
    value, used to state the counting lemmas. *)
Definition grid_sum {A : Type} (f : A -> Z) (g : list (list A)) : Z :=
  sum (map (fun row => sum (map f row)) g).

Definition indicator (b : bool) : Z := if b then 1 else 0.

(** ** The rectangle callback *)

(** A value of the [relayoutData] dictionary, as decoded from JSON: a number,
    [null], a list of rectangles (the value of the key [shapes]; a rectangle
    holds its four coordinates), a string, a boolean, or anything else, of
    which only the truth value matters. *)
Inductive json : Type :=
  | JNumber (q : Q)
  | JNull
  | JShapes (shapes : list crop_coords)
  | JString (s : string)
  | JBool (b : bool)
  | JOther (truthy : bool).

(** The truth value of [if v:]. *)
Definition truthy (v : json) : bool :=
  match v with
  | JNumber q => negb (Qeq_bool q 0)
  | JNull => false
  | JShapes shapes => match shapes with [] => false | _ => true end
  | JString s => negb (String.eqb s "")
  | JBool b => b
  | JOther t => t
  end.

(** A dictionary with string keys: its items in order, every key once. *)
Definition dict : Type := list (string * json).

(** [d.get(key)] ([None] when the key is absent). *)
Fixpoint dict_get (key : string) (d : dict) : option json :=
  match d with
  | [] => None
  | (k, v) :: rest => if String.eqb k key then Some v else dict_get key rest
  end.

(** [s.split(c)[0]]: the text before the first [c]. *)
Fixpoint before_char (c : ascii) (s : string) : string :=
  match s with
  | EmptyString => EmptyString
  | String a rest =>
      if Ascii.eqb a c then EmptyString else String a (before_char c rest)
  end.

(** The text after the first [c] ([None] when [c] does not occur). *)
Fixpoint after_char (c : ascii) (s : string) : option string :=
  match s with
  | EmptyString => None
  | String a rest => if Ascii.eqb a c then Some rest else after_char c rest
  end.

(** [s.startswith(p)] *)
Fixpoint starts_with (p s : string) : bool :=
  match p with
  | EmptyString => true
  | String a p' =>
      match s with
      | EmptyString => false
      | String b s' => Ascii.eqb a b && starts_with p' s'
      end
  end.

(** [int(k.split("]")[0].split("[")[1])]; [None] is the [IndexError] or the
    [ValueError]. *)
Definition shape_index (k : string) : option Z :=
  match after_char "["%char (before_char "]"%char k) with
  | None => None
  | Some tail => py_int (before_char "["%char tail)
  end.

(** The loop that collects the indices; an exception ends it. *)
Fixpoint shape_indices (keys : list string) : option (list Z) :=
  match keys with
  | [] => Some []
  | k :: rest =>
      match shape_index k with
      | None => None
      | Some i =>
          match shape_indices rest with
          | None => None
          | Some l => Some (i :: l)
          end
      end
  end.

(** [max(indices)] on a non-empty collection. *)
Definition max_index (indices : list Z) : Z :=
  match indices with
  | [] => 0
  | i :: rest => fold_right Z.max i rest
  end.

(** The four values kept in [store-crop-coords], in the order
    [x0], [y0], [x1], [y1]. *)
Definition crop_vals : Type := json * json * json * json.

Definition vals_of_shape (s : crop_coords) : crop_vals :=
  (JNumber (crop_x0 s), JNumber (crop_y0 s),
   JNumber (crop_x1 s), JNumber (crop_y1 s)).

Definition not_null (v : option json) : bool :=
  match v with
  | None | Some JNull => false
  | Some _ => true
  end.

Definition or_null (v : option json) : json :=
  match v with
  | Some v => v
  | None => JNull
  end.

(** The outputs of [on_relayout]: the stored rectangle and the [disabled]
    flag of the apply button. *)
Definition on_relayout (relayout_data : option dict) :
    response (option crop_vals * bool) :=
  match relayout_data with
  | None | Some [] => NoUpdate
  | Some data =>
      match dict_get "shapes" data with
      | Some shapes =>
          if truthy shapes then
            match shapes with
            | JShapes l => Updated (Some (vals_of_shape (last l (mk_crop 0 0 0 0))),
                                    false)
            | _ => Raised
            end
          else Updated (None, true)
      | None =>
          let shape_keys :=
            filter (starts_with "shapes[") (map fst data) in
          match shape_keys with
          | [] => NoUpdate
          | _ =>
              match shape_indices shape_keys with
              | None => Raised
              | Some indices =>
                  let last_idx := max_index indices in
                  let prefix := ("shapes[" ++ py_str last_idx ++ "]")%string in
                  let get p := dict_get (prefix ++ "." ++ p)%string data in
                  if not_null (get "x0"%string) && not_null (get "y0"%string)
                     && not_null (get "x1"%string)
                     && not_null (get "y1"%string)
                  then Updated (Some (or_null (get "x0"%string),
                                      or_null (get "y0"%string),
                                      or_null (get "x1"%string),
                                      or_null (get "y1"%string)), false)
                  else NoUpdate
              end
          end
      end
  end.

(** The number that [min], [max] and [round] take a stored value for: a
    boolean counts as 0 or 1; on anything else they raise. *)
Definition number_of (v : json) : option Q :=
  match v with
  | JNumber q => Some q
  | JBool b => Some (if b then 1%Q else 0%Q)
  | _ => None
  end.

Definition crop_of_vals (vals : crop_vals) : option crop_coords :=
  let '(x0, y0, x1, y1) := vals in
  match number_of x0, number_of y0, number_of x1, number_of y1 with
  | Some x0, Some y0, Some x1, Some y1 => Some (mk_crop x0 y0 x1 y1)
  | _, _, _, _ => None
  end.

(** The key of the coordinate [p] of the shape of index [i], and the test
    of a decimal digit. *)
Definition shape_key (i : Z) (p : string) : string :=
  ("shapes[" ++ py_str i ++ "]." ++ p)%string.

Definition is_digit (c : ascii) : bool :=
  match c with
  | "0" | "1" | "2" | "3" | "4" | "5" | "6" | "7" | "8" | "9" => true
  | _ => false
  end%char.

(** ** The CSV export *)

(** The characters that the writer of the [csv] module treats specially
    (dialect [excel]): the delimiter, the quote, and the characters of the
    line terminator. *)
Definition comma : ascii := ","%char.
Definition quote : ascii := "034"%char.
Definition cr : ascii := "013"%char.
Definition lf : ascii := "010"%char.

Definition special (c : ascii) : bool :=
  Ascii.eqb c comma || Ascii.eqb c quote || Ascii.eqb c cr || Ascii.eqb c lf.

Fixpoint needs_quote (s : string) : bool :=
  match s with
  | EmptyString => false
  | String c rest => special c || needs_quote rest
  end.

(** Every quote written twice. *)
Fixpoint double_quotes (s : string) : string :=
  match s with
  | EmptyString => EmptyString
  | String c rest =>
      if Ascii.eqb c quote then String quote (String quote (double_quotes rest))
      else String c (double_quotes rest)
  end.

(** A field as the writer puts it: between quotes when it holds a special
    character, as it is otherwise. *)
Definition csv_field (s : string) : string :=
  if needs_quote s
  then String quote (double_quotes s ++ String quote EmptyString)
  else s.

Fixpoint join_fields (fields : list string) : string :=
  match fields with
  | [] => EmptyString
  | [f] => f
  | f :: rest => (f ++ String comma (join_fields rest))%string
  end.

Definition crlf : string := String cr (String lf EmptyString).

(** [writer.writerow(fields)]: the fields joined by commas and the line
    terminator; a record that would be empty (one empty field) is written as
    a pair of quotes. *)
Definition csv_record (fields : list string) : string :=
  let line := join_fields (map csv_field fields) in
  match fields, line with
  | _ :: _, EmptyString => (String quote (String quote EmptyString) ++ crlf)%string
  | _, _ => (line ++ crlf)%string
  end.

(** The column titles of the export, in UTF-8. *)
Definition header_filename : string :=
  string_of_list_ascii
    ["227"; "131"; "149"; "227"; "130"; "161"; "227"; "130"; "164"; "227";
     "131"; "171"; "229"; "144"; "141"]%char.

Definition header_count1 : string :=
  string_of_list_ascii
    ["231"; "153"; "189"; "231"; "148"; "187"; "231"; "180"; "160"; "230";
     "149"; "176"; "040"; "116"; "049"; "041"]%char.

Definition header_count2 : string :=
  string_of_list_ascii
    ["231"; "153"; "189"; "231"; "148"; "187"; "231"; "180"; "160"; "230";
     "149"; "176"; "040"; "116"; "050"; "041"]%char.

Definition header_diff : string :=
  string_of_list_ascii
    ["229"; "183"; "174"; "229"; "136"; "134"; "040"; "116"; "049"; "045";
     "116"; "050"; "041"]%char.

Definition header_ratio : string :=
  string_of_list_ascii
    ["229"; "183"; "174"; "229"; "136"; "134"; "047"; "116"; "049"; "040";
     "037"; "041"]%char.

Definition csv_header : list string :=
  [header_filename; header_count1; header_count2; header_diff; header_ratio].

(** The byte order mark, in UTF-8. *)
Definition bom : string :=
  String "239"%char (String "187"%char (String "191"%char EmptyString)).

Definition row_fields (r : result_row) : list string :=
  [row_filename r; row_count1 r; row_count2 r; row_diff r; row_ratio r].

Fixpoint concat_strings (l : list string) : string :=
  match l with
  | [] => EmptyString
  | s :: rest => (s ++ concat_strings rest)%string
  end.

(** The [content] of the download that [on_export] returns (its file name
    and type are constants). *)
Definition on_export (n_clicks : Z) (table_data : option (list result_row)) :
    response string :=
  match table_data with
  | None | Some [] => NoUpdate
  | Some rows =>
      Updated (bom ++ csv_record csv_header
                   ++ concat_strings
                        (map (fun r => csv_record (row_fields r)) rows))%string
  end.

(** Reading one field back, used to show that the export loses nothing: after
    an opening quote up to the closing one, a doubled quote standing for a
    quote; otherwise up to the next comma or line end. *)
Fixpoint read_quoted (s : string) : string * string :=
  match s with
  | EmptyString => (EmptyString, EmptyString)
  | String a rest =>
      if Ascii.eqb a quote then
        match rest with
        | String b rest' =>
            if Ascii.eqb b quote
            then let (f, r) := read_quoted rest' in (String quote f, r)
            else (EmptyString, rest)
        | EmptyString => (EmptyString, EmptyString)
        end
      else let (f, r) := read_quoted rest in (String a f, r)
  end.

Fixpoint read_plain (s : string) : string * string :=
  match s with
  | EmptyString => (EmptyString, EmptyString)
  | String a rest =>
      if Ascii.eqb a comma || Ascii.eqb a cr then (EmptyString, s)
      else let (f, r) := read_plain rest in (String a f, r)
  end.

Definition read_field (s : string) : string * string :=
  match s with
  | String a rest => if Ascii.eqb a quote then read_quoted rest else read_plain s
  | EmptyString => (EmptyString, EmptyString)
  end.

(** A text that starts with a comma or a line end: what follows a field. *)
Definition ends_field (rest : string) : Prop :=
  exists c tail, rest = String c tail /\ (c = comma \/ c = cr).

(** The record of a row followed by [tail], field after field. *)
Definition row_text (r : result_row) (tail : string) : string :=
  (csv_field (row_filename r) ++ String comma
     (csv_field (row_count1 r) ++ String comma
        (csv_field (row_count2 r) ++ String comma
           (csv_field (row_diff r) ++ String comma
              (csv_field (row_ratio r) ++ String cr (String lf tail))))))%string.

(** ** The application: its state and its callbacks *)

(** The figure that [build_original_figure] makes of an image: the image as
    the heat map, and the height [max(300, min(550, h + 20))]. *)
Definition build_original_figure (arr : grid) : grid * Z :=
  (arr, Z.max 300 (Z.min 550 (Z.of_nat (length arr) + 20))).

(** The nine outputs of [on_upload]: the stored image, the stored file name,
    the figure, whether the crop area is shown, the [disabled] flag of the
    apply button, the stored rectangle, and whether the three result sections
    are shown. *)
Record upload_outputs : Type := mk_upload_outputs {
  up_original : grid;
  up_filename : string;
  up_figure : grid * Z;
  up_crop_area_shown : bool;
  up_apply_disabled : bool;
  up_crop_coords : option crop_vals;
  up_section_filter_shown : bool;
  up_section_level_shown : bool;
  up_section_threshold_shown : bool
}.

(** The texts that [on_threshold] shows for the three counts. *)
Definition count_texts (view : threshold_view) : string * string * string :=
  (format_commas (white_count_1 view), format_commas (white_count_2 view),
   format_commas (diff_count view)).

(** The three sizes of the kernel menu. *)
Inductive kernel_choice : Type := Kernel3 | Kernel5 | Kernel7.

Definition kernel_value (k : kernel_choice) : Z :=
  match k with
  | Kernel3 => 3
  | Kernel5 => 5
  | Kernel7 => 7
  end.

(** The properties of the page that the callbacks read and write.  A store
    that holds an image holds the grid itself: the PNG text that
    [arr_to_b64] writes is read back by [b64_to_arr] as the same eight-bit
    grid. *)
Record app_state : Type := mk_app_state {
  store_original_data : option grid;
  store_filename_data : option string;
  store_crop_coords_data : option crop_vals;
  apply_btn_disabled : bool;
  kernel_size_value : Z;
  store_adjusted_data : option grid;
  store_histogram_data : option (list Z);
  t1_slider_value : Z;
  t2_slider_value : Z;
  white_count_1_children : string;
  white_count_2_children : string;
  diff_count_children : string;
  store_table_data : option (list result_row);
  export_btn_disabled : bool
}.

(** The page as the layout declares it. *)
Definition initial_state : app_state :=
  mk_app_state None None None true 3 None None 128 200
    em_dash em_dash em_dash (Some []) true.

(** What can happen to the page: each event fires one callback, with the
    values that the user supplies as arguments. *)
Inductive event : Type :=
  | Upload (contents : option string) (filename : option string)
  | Relayout (relayout_data : option dict)
  | SelectKernel (choice : kernel_choice)
  | ClickApply (n_clicks : Z)
  | MoveSliders (t1 t2 : Z)
  | ClickAddTable (n_clicks : Z)
  | ClickExport (n_clicks : Z).

(** [on_apply] on the stored rectangle: the stored values are taken as
    numbers; on values that are not numbers [min] or [round] raises, once the
    image has been read. *)
Definition on_apply_stored (n_clicks : Z) (original : option grid)
    (crop : option crop_vals) (kernel_size : Z) :
    list stage * response apply_outputs :=
  match crop with
  | None => on_apply n_clicks original None kernel_size
  | Some vals =>
      match crop_of_vals vals with
      | Some c => on_apply n_clicks original (Some c) kernel_size
      | None =>
          match original with
          | None => ([], NoUpdate)
          | Some _ => ([], Raised)
          end
      end
  end.

Section Application.

(** [decode_upload_to_gray]: the decoder of the image library, [None] when it
    raises. *)
Variable decode_upload_to_gray : string -> option grid.

Definition on_upload (contents : option string) (filename : option string) :
    response upload_outputs :=
  match contents with
  | None => NoUpdate
  | Some c =>
      match decode_upload_to_gray c with
      | None => Raised
      | Some arr =>
          Updated (mk_upload_outputs
                     arr
                     (match filename with
                      | Some (String a name) => String a name
                      | _ => "unknown"%string
                      end)
                     (build_original_figure arr)
                     true true None false false false)
      end
  end.

(** One event: the callback runs on the current values and its outputs, when
    it returns some, replace the properties it is wired to. *)
Definition step (s : app_state) (e : event) : app_state :=
  match e with
  | Upload contents filename =>
      match on_upload contents filename with
      | Updated o =>
          mk_app_state
            (Some (up_original o)) (Some (up_filename o))
            (up_crop_coords o) (up_apply_disabled o)
            (kernel_size_value s) (store_adjusted_data s)
            (store_histogram_data s) (t1_slider_value s) (t2_slider_value s)
            (white_count_1_children s) (white_count_2_children s)
            (diff_count_children s) (store_table_data s)
            (export_btn_disabled s)
      | _ => s
      end
  | Relayout relayout_data =>
      match on_relayout relayout_data with
      | Updated (crop, disabled) =>
          mk_app_state
            (store_original_data s) (store_filename_data s) crop disabled
            (kernel_size_value s) (store_adjusted_data s)
            (store_histogram_data s) (t1_slider_value s) (t2_slider_value s)
            (white_count_1_children s) (white_count_2_children s)
            (diff_count_children s) (store_table_data s)
            (export_btn_disabled s)
      | _ => s
      end
  | SelectKernel choice =>
      mk_app_state
        (store_original_data s) (store_filename_data s)
        (store_crop_coords_data s) (apply_btn_disabled s)
        (kernel_value choice) (store_adjusted_data s)
        (store_histogram_data s) (t1_slider_value s) (t2_slider_value s)
        (white_count_1_children s) (white_count_2_children s)
        (diff_count_children s) (store_table_data s)
        (export_btn_disabled s)
  | ClickApply n_clicks =>
      match snd (on_apply_stored n_clicks (store_original_data s)
                   (store_crop_coords_data s) (kernel_size_value s)) with
      | Updated o =>
          mk_app_state
            (store_original_data s) (store_filename_data s)
            (store_crop_coords_data s) (apply_btn_disabled s)
            (kernel_size_value s) (Some (store_adjusted o))
            (Some (store_histogram o)) (t1_slider o) (t2_slider o)
            (white_count_1_children s) (white_count_2_children s)
            (diff_count_children s) (store_table_data s)
            (export_btn_disabled s)
      | _ => s
      end
  | MoveSliders t1 t2 =>
      match on_threshold t1 t2 (store_adjusted_data s)
              (store_histogram_data s) with
      | Some view =>
          let '(text1, text2, text_diff) := count_texts view in
          mk_app_state
            (store_original_data s) (store_filename_data s)
            (store_crop_coords_data s) (apply_btn_disabled s)
            (kernel_size_value s) (store_adjusted_data s)
            (store_histogram_data s) t1 t2 text1 text2 text_diff
            (store_table_data s) (export_btn_disabled s)
      | None =>
          mk_app_state
            (store_original_data s) (store_filename_data s)
            (store_crop_coords_data s) (apply_btn_disabled s)
            (kernel_size_value s) (store_adjusted_data s)
            (store_histogram_data s) t1 t2
            (white_count_1_children s) (white_count_2_children s)
            (diff_count_children s) (store_table_data s)
            (export_btn_disabled s)
      end
  | ClickAddTable n_clicks =>
      match on_add_table n_clicks (store_filename_data s)
              (t1_slider_value s) (t2_slider_value s)
              (white_count_1_children s) (white_count_2_children s)
              (store_table_data s) with
      | Updated (_, table, disabled) =>
          mk_app_state
            (store_original_data s) (store_filename_data s)
            (store_crop_coords_data s) (apply_btn_disabled s)
            (kernel_size_value s) (store_adjusted_data s)
            (store_histogram_data s) (t1_slider_value s) (t2_slider_value s)
            (white_count_1_children s) (white_count_2_children s)
            (diff_count_children s) (Some table) disabled
      | _ => s
      end
  | ClickExport n_clicks => s
  end.

(** The states that a sequence of events leads to. *)
Inductive reachable : app_state -> Prop :=
  | reachable_initial : reachable initial_state
  | reachable_step (s : app_state) (e : event) :
      reachable s -> reachable (step s e).

End Application.

(** A row whose three number fields agree: they are the texts of two counts
    and of their difference. *)
Definition row_consistent (r : result_row) : Prop :=
  exists c1 c2,
    0 <= c1 /\ 0 <= c2
    /\ row_count1 r = format_commas c1 /\ row_count2 r = format_commas c2
    /\ row_diff r = format_commas (c1 - c2).

(** The texts of the two white counts: both the placeholder, or both the
    text of a count. *)
Definition counts_shown (text1 text2 : string) : Prop :=
  (text1 = em_dash /\ text2 = em_dash)
  \/ exists c1 c2,
       0 <= c1 /\ 0 <= c2
       /\ text1 = format_commas c1 /\ text2 = format_commas c2.

(** An image as the decoder returns it. *)
Definition gray_image (arr : grid) : Prop :=
  uint8_grid arr
  /\ exists h w, (1 <= h)%nat /\ (1 <= w)%nat /\ has_shape arr h w.

(** What holds of the controls and of the table in every state the page can
    reach. *)
Record page_invariant (s : app_state) : Prop := mk_page_invariant {
  inv_kernel :
    kernel_size_value s = 3 \/ kernel_size_value s = 5
    \/ kernel_size_value s = 7;
  inv_button :
    apply_btn_disabled s = true <-> store_crop_coords_data s = None;
  inv_counts :
    counts_shown (white_count_1_children s) (white_count_2_children s);
  inv_table :
    exists rows,
      store_table_data s = Some rows
      /\ Forall row_consistent rows
      /\ (export_btn_disabled s = true <-> rows = [])
}.

(** What holds of the stored images when the decoder returns images. *)
Record image_invariant (s : app_state) : Prop := mk_image_invariant {
  inv_original :
    forall arr, store_original_data s = Some arr -> gray_image arr;
  inv_adjusted :
    (store_adjusted_data s = None /\ store_histogram_data s = None)
    \/ exists adjusted,
         store_adjusted_data s = Some adjusted
         /\ store_histogram_data s = Some (compute_histogram adjusted)
         /\ gray_image adjusted
}.

(** * Properties *)

(** ** Enumerations *)

Lemma zrange_In (lo : Z) (n : nat) (x : Z) :
  lo <= x < lo + Z.of_nat n -> In x (zrange lo n).
Proof.
  revert lo. induction n as [|n IH]; intros lo Hx; [lia|].
  simpl. destruct (Z.eq_dec lo x) as [Heq|Hne]; [left; exact Heq|].
  right. apply IH. lia.
Qed.

Lemma forallb_zrange (p : Z -> bool) (lo : Z) (n : nat) (x : Z) :
  forallb p (zrange lo n) = true -> lo <= x < lo + Z.of_nat n -> p x = true.
Proof.
  intros Hall Hx. rewrite forallb_forall in Hall.
  apply Hall, zrange_In, Hx.
Qed.

(** ** Level adjustment *)

Example float_to_uint8_samples :
  map float_to_uint8 [Z2f 0; Z2f 200; Z2f 255; stretch (Z2f 1) 2;
                      stretch (Z2f 2) 7; stretch (Z2f 254) 255]
  = [0; 200; 255; 127; 72; 254].
Proof. vm_compute. reflexivity. Qed.

Lemma sub_exact_checked :
  let samples := zrange 0 256 in
  forallb (fun v => forallb (fun mn =>
      PrimFloat.Leibniz.eqb (PrimFloat.sub (Z2f v) (Z2f mn)) (Z2f (v - mn)))
    samples) samples = true.
Proof. vm_compute. reflexivity. Qed.

Lemma stretch_checked :
  let differences := zrange (-255) 511 in
  forallb (fun r => forallb (fun x => stretch_check_one x r) differences)
    (zrange 1 255) = true.
Proof. vm_compute. reflexivity. Qed.

(** The subtraction of two samples is exact. *)
Lemma sub_exact (v mn : Z) :
  uint8 v -> uint8 mn -> PrimFloat.sub (Z2f v) (Z2f mn) = Z2f (v - mn).
Proof.
  unfold uint8. intros Hv Hmn.
  apply FloatAxioms.Leibniz.eqb_spec.
  refine (forallb_zrange _ 0 256 mn
            (forallb_zrange _ 0 256 v sub_exact_checked _) _); lia.
Qed.

Lemma stretch_check_one_ok (x r : Z) :
  -255 <= x <= 255 -> 1 <= r <= 255 -> stretch_check_one x r = true.
Proof.
  intros Hx Hr.
  refine (forallb_zrange _ (-255) 511 x
            (forallb_zrange _ 1 255 r stretch_checked _) _); lia.
Qed.

Lemma clip_low (y lo hi : float) :
  PrimFloat.ltb y lo = true -> PrimFloat.ltb hi lo = false -> clip y lo hi = lo.
Proof. intros H1 H2. unfold clip. rewrite H1, H2. reflexivity. Qed.

Lemma clip_high (y lo hi : float) :
  PrimFloat.ltb y lo = false -> PrimFloat.ltb hi y = true -> clip y lo hi = hi.
Proof. intros H1 H2. unfold clip. rewrite H1, H2. reflexivity. Qed.

(** On eight-bit samples and bounds the binary64 computation returns the exact
    quotient rounded down, clamped to [0, 255]. *)
Lemma level_value_floor (v mn mx : Z) :
  uint8 v -> uint8 mn -> uint8 mx -> mn < mx ->
  level_value v mn (mx - mn) = stretch_floor v mn mx.
Proof.
  intros Hv Hmn Hmx Hlt. unfold level_value, stretch_floor.
  rewrite (sub_exact v mn Hv Hmn).
  unfold uint8 in *.
  set (x := v - mn). set (r := mx - mn).
  assert (Hx : -255 <= x <= 255) by (subst x; lia).
  assert (Hr : 1 <= r <= 255) by (subst r; lia).
  pose proof (stretch_check_one_ok x r Hx Hr) as Hc.
  unfold stretch_check_one in Hc.
  destruct (x <? 0) eqn:Hneg.
  - apply Z.ltb_lt in Hneg.
    rewrite clip_low by (exact Hc || reflexivity).
    assert (x * 255 / r < 0) by (apply Z.div_lt_upper_bound; lia).
    replace (float_to_uint8 (Z2f 0)) with 0 by (vm_compute; reflexivity).
    lia.
  - apply Z.ltb_ge in Hneg.
    destruct (r <? x) eqn:Hbig.
    + apply Z.ltb_lt in Hbig. apply andb_true_iff in Hc. destruct Hc as [H0 H1].
      apply negb_true_iff in H0.
      rewrite clip_high by assumption.
      assert (255 <= x * 255 / r) by (apply Z.div_le_lower_bound; lia).
      replace (float_to_uint8 (Z2f 255)) with 255 by (vm_compute; reflexivity).
      lia.
    + apply Z.ltb_ge in Hbig. apply Z.eqb_eq in Hc. rewrite Hc.
      assert (0 <= x * 255 / r) by (apply Z.div_pos; lia).
      assert (x * 255 / r <= 255) by (apply Z.div_le_upper_bound; nia).
      lia.
Qed.

(** ** Histogram analysis *)

Example ge_one_percent_samples :
  map (fun p => ge_one_percent (fst p) (snd p))
      [(100, 25600); (200, 25600); (300, 25600); (1, 100); (99, 10000);
       (0, 7); (7, 7); (255, 25600); (256, 25600); (257, 25600)]
  = map (fun p => ge_one_percent_b64 (fst p) (snd p))
      [(100, 25600); (200, 25600); (300, 25600); (1, 100); (99, 10000);
       (0, 7); (7, 7); (255, 25600); (256, 25600); (257, 25600)].
Proof. vm_compute. reflexivity. Qed.

(** For totals below [2^53] the binary64 test is the exact comparison of the
    share with one hundredth. *)
Lemma ge_one_percent_exact (cum total : Z) :
  0 < total < 2 ^ 53 ->
  ge_one_percent cum total = (total <=? 100 * cum).
Proof.
  intros Ht. unfold ge_one_percent, tail_midpoint.
  destruct (0 <? total) eqn:Hpos; [|apply Z.ltb_ge in Hpos; lia].
  change (2 ^ 60) with 1152921504606846976.
  change (2 ^ 53) with 9007199254740992 in Ht.
  destruct (total <=? 100 * cum) eqn:Hle.
  - apply Z.leb_le in Hle. apply Z.ltb_lt. lia.
  - apply Z.leb_gt in Hle. apply Z.ltb_ge. lia.
Qed.

Section Percentiles.

Variable hist : list Z.
Variable total : Z.
Hypothesis total_pos : 0 < total.

Lemma sum_app (l1 l2 : list Z) : sum (l1 ++ l2) = sum l1 + sum l2.
Proof. induction l1 as [|x l1 IH]; simpl; [reflexivity | rewrite IH; lia]. Qed.

Lemma sum_firstn_skipn (k : nat) (l : list Z) :
  sum (firstn k l) + sum (skipn k l) = sum l.
Proof. rewrite <- sum_app, firstn_skipn. reflexivity. Qed.

Lemma sum_firstn_S (l : list Z) (k : nat) (h : Z) :
  nth_error l k = Some h -> sum (firstn (S k) l) = sum (firstn k l) + h.
Proof.
  revert k. induction l as [|x l IH]; intros [|k] Hk; simpl in *;
    try discriminate.
  - injection Hk as ->. lia.
  - rewrite (IH k Hk). lia.
Qed.

Lemma sum_skipn_S (l : list Z) (k : nat) (h : Z) :
  nth_error l k = Some h -> sum (skipn k l) = h + sum (skipn (S k) l).
Proof.
  revert k. induction l as [|x l IH]; intros [|k] Hk; simpl in *;
    try discriminate.
  - injection Hk as ->. reflexivity.
  - apply (IH k Hk).
Qed.

Lemma sum_nonneg (l : list Z) : Forall (fun h => 0 <= h) l -> 0 <= sum l.
Proof. induction 1; simpl; lia. Qed.

Lemma sum_firstn_mono (l : list Z) (a b : nat) :
  Forall (fun h => 0 <= h) l -> (a <= b)%nat ->
  sum (firstn a l) <= sum (firstn b l).
Proof.
  intros Hl. revert a b.
  induction Hl as [|x l Hx Hl IH]; intros a b Hab.
  - rewrite !firstn_nil. lia.
  - destruct a as [|a]; destruct b as [|b]; simpl; try lia.
    + specialize (IH 0%nat b). simpl in IH. lia.
    + specialize (IH a b). lia.
Qed.

(** The ascending loop started at index [a] with the counts below [a]
    already added: it ends at the first index whose prefix passes the test. *)
Lemma scan_up_spec (d : Z) (n a : nat) :
  (a + n <= length hist)%nat ->
  ge_one_percent (sum (firstn a hist)) total = false ->
  exists v,
    percentile_scan hist total (seq a n) (sum (firstn a hist)) d = Some v /\
    ((v = d /\ ge_one_percent (sum (firstn (a + n) hist)) total = false) \/
     (exists i, v = Z.of_nat i /\ (a <= i < a + n)%nat /\
        ge_one_percent (sum (firstn (S i) hist)) total = true /\
        ge_one_percent (sum (firstn i hist)) total = false)).
Proof.
  revert a. induction n as [|n IH]; intros a Hlen Hlow.
  - exists d. simpl. split; [reflexivity|]. left.
    rewrite Nat.add_0_r. auto.
  - simpl. destruct (nth_error hist a) as [h|] eqn:Hh.
    2:{ apply nth_error_None in Hh. lia. }
    rewrite <- (sum_firstn_S hist a h Hh).
    destruct (ge_one_percent (sum (firstn (S a) hist)) total) eqn:Hge.
    + exists (Z.of_nat a). split; [reflexivity|]. right.
      exists a. repeat split; auto; lia.
    + destruct (IH (S a)) as [v [Hv Hcase]]; [lia | exact Hge |].
      exists v. split; [exact Hv|].
      destruct Hcase as [[-> Hno] | [i [-> [Hi [H1 H2]]]]].
      * left. split; [reflexivity|].
        replace (a + S n)%nat with (S a + n)%nat by lia. exact Hno.
      * right. exists i. repeat split; auto; lia.
Qed.

(** The descending loop over [n-1, ..., 0] with the counts from [n] upwards
    already added: it ends at the last index whose suffix passes the test. *)
Lemma scan_down_spec (d : Z) (n : nat) :
  (n <= length hist)%nat ->
  ge_one_percent (sum (skipn n hist)) total = false ->
  exists v,
    percentile_scan hist total (rev (seq 0 n)) (sum (skipn n hist)) d
      = Some v /\
    ((v = d /\ ge_one_percent (sum hist) total = false) \/
     (exists i, v = Z.of_nat i /\ (i < n)%nat /\
        ge_one_percent (sum (skipn i hist)) total = true /\
        ge_one_percent (sum (skipn (S i) hist)) total = false)).
Proof.
  induction n as [|n IH]; intros Hlen Hhigh.
  - exists d. simpl. split; [reflexivity|]. left. auto.
  - rewrite seq_S, rev_app_distr. cbn [rev app percentile_scan Nat.add].
    destruct (nth_error hist n) as [h|] eqn:Hh.
    2:{ apply nth_error_None in Hh. lia. }
    replace (sum (skipn (S n) hist) + h) with (sum (skipn n hist))
      by (rewrite (sum_skipn_S hist n h Hh); lia).
    destruct (ge_one_percent (sum (skipn n hist)) total) eqn:Hge.
    + exists (Z.of_nat n). split; [reflexivity|]. right.
      exists n. repeat split; auto.
    + destruct IH as [v [Hv Hcase]]; [lia | reflexivity |].
      exists v. split; [exact Hv|].
      destruct Hcase as [Hd | [i [-> [Hi [H1 H2]]]]].
      * left. exact Hd.
      * right. exists i. repeat split; auto; lia.
Qed.

Lemma ge_one_percent_total : ge_one_percent total total = true.
Proof.
  unfold ge_one_percent, tail_midpoint.
  destruct (0 <? total) eqn:H; [|apply Z.ltb_ge in H; lia].
  apply Z.ltb_lt. lia.
Qed.

Lemma ge_one_percent_zero : ge_one_percent 0 total = false.
Proof.
  unfold ge_one_percent, tail_midpoint.
  destruct (0 <? total) eqn:H; [|apply Z.ltb_ge in H; lia].
  apply Z.ltb_ge. lia.
Qed.

(** Two parts of the histogram that both fail the test do not cover it. *)
Lemma two_tails_short (p q : Z) :
  ge_one_percent p total = false -> ge_one_percent q total = false ->
  p + q < total.
Proof.
  unfold ge_one_percent, tail_midpoint.
  destruct (0 <? total) eqn:H; [|apply Z.ltb_ge in H; lia].
  intros Hp Hq. apply Z.ltb_ge in Hp, Hq. lia.
Qed.

End Percentiles.

(** C1 (as the code has it): on the histogram of 256 bins of 100 each the
    analysis returns [min_val = 2], [max_val = 253] and [skewed = false]: the
    first bins hold 100/25600 and 200/25600 of the pixels, both below one
    percent, and the third reaches 300/25600. *)
Theorem analyse_uniform :
  analyse_histogram (repeat 100 256) = Some (mk_analysis false 2 253).
Proof. vm_compute. reflexivity. Qed.

(** C1 (as stated) fails: the analysis of the uniform histogram is not
    [min_val = 0], [max_val = 255], [skewed = false]. *)
Lemma analyse_uniform_not_full_range :
  analyse_histogram (repeat 100 256) <> Some (mk_analysis false 0 255).
Proof. vm_compute. discriminate. Qed.

(** C4: for every 256-bin histogram of non-negative counts whose total is
    positive, [analyse_histogram] returns an analysis with
    [min_val <= max_val], and [skewed] is true exactly when
    [max_val - min_val < 200]. *)
Theorem analyse_histogram_ordered (hist : list Z) :
  length hist = 256%nat -> Forall (fun h => 0 <= h) hist -> 0 < sum hist ->
  exists a, analyse_histogram hist = Some a /\
            min_val a <= max_val a /\
            (skewed a = true <-> max_val a - min_val a < 200).
Proof.
  intros Hlen Hnn Hpos. unfold analyse_histogram.
  destruct (sum hist =? 0) eqn:Hz; [apply Z.eqb_eq in Hz; lia|]. clear Hz.
  destruct (scan_up_spec hist (sum hist) 0 256 0) as [mn [Hmn Hup]].
  { rewrite Hlen. lia. }
  { simpl. apply ge_one_percent_zero, Hpos. }
  destruct (scan_down_spec hist (sum hist) 255 256) as [mx [Hmx Hdown]].
  { rewrite Hlen. lia. }
  { rewrite <- Hlen, skipn_all. apply ge_one_percent_zero, Hpos. }
  rewrite <- Hlen, skipn_all in Hmx. rewrite Hlen in Hmx.
  change (sum (firstn 0 hist)) with 0 in Hmn.
  unfold range_up, range_down. change (sum []) with 0 in Hmx.
  rewrite Hmn, Hmx.
  eexists. split; [reflexivity|]. simpl. split; [|apply Z.ltb_lt].
  pose proof (ge_one_percent_total (sum hist) Hpos) as Htot.
  destruct Hup as [[_ Hno] | [i [-> [Hi [Hi1 Hi2]]]]].
  { replace (0 + 256)%nat with (length hist) in Hno
      by (rewrite Hlen; reflexivity).
    rewrite firstn_all in Hno. congruence. }
  destruct Hdown as [[_ Hno] | [j [-> [Hj [Hj1 Hj2]]]]].
  { congruence. }
  destruct (Nat.le_gt_cases i j) as [Hij | Hji]; [lia|].
  exfalso.
  pose proof (two_tails_short (sum hist) Hpos _ _ Hi2 Hj2) as Hshort.
  pose proof (sum_firstn_mono hist (S j) i Hnn Hji) as Hmono.
  pose proof (sum_firstn_skipn (S j) hist). lia.
Qed.

Lemma analyse_histogram_ordered_witness :
  exists a, analyse_histogram (repeat 100 200 ++ repeat 0 56) = Some a /\
            min_val a <= max_val a /\
            (skewed a = true <-> max_val a - min_val a < 200).
Proof.
  apply analyse_histogram_ordered.
  - reflexivity.
  - apply Forall_app. split; apply Forall_forall; intros x Hx;
      apply repeat_spec in Hx; lia.
  - vm_compute. reflexivity.
Defined.

(** ** Level adjustment on grids *)

Lemma map_grid_ext_uint8 (f g : Z -> Z) (arr : grid) :
  (forall v, uint8 v -> f v = g v) -> uint8_grid arr ->
  map_grid f arr = map_grid g arr.
Proof.
  intros Hfg Harr. unfold map_grid.
  induction Harr as [|row arr Hrow _ IH]; simpl; [reflexivity|].
  f_equal; [|exact IH].
  induction Hrow as [|v row Hv _ IHrow]; simpl; [reflexivity|].
  f_equal; [apply Hfg, Hv | exact IHrow].
Qed.

Lemma map_grid_id (arr : grid) : map_grid (fun v => v) arr = arr.
Proof.
  unfold map_grid. induction arr as [|row arr IH]; simpl; [reflexivity|].
  rewrite IH, map_id. reflexivity.
Qed.

(** C2 (as the code has it): for every eight-bit grid and bounds
    [0 <= min_val < max_val <= 255], [apply_level_adjustment] maps each sample
    [v] to [(v - min_val) * 255 / (max_val - min_val)] rounded down to an
    integer (the cast to [uint8] drops the fraction) and clamped to
    [0, 255]. *)
Theorem apply_level_adjustment_floor (arr : grid) (mn mx : Z) :
  uint8_grid arr -> uint8 mn -> uint8 mx -> mn < mx ->
  apply_level_adjustment arr mn mx
  = map_grid (fun v => stretch_floor v mn mx) arr.
Proof.
  intros Harr Hmn Hmx Hlt. unfold apply_level_adjustment.
  destruct (mx - mn <=? 0) eqn:Hr; [apply Z.leb_le in Hr; lia|].
  apply map_grid_ext_uint8; [|exact Harr].
  intros v Hv. apply level_value_floor; assumption.
Qed.

Lemma apply_level_adjustment_floor_witness :
  apply_level_adjustment [[0; 50; 200]; [100; 150; 255]] 50 200
  = map_grid (fun v => stretch_floor v 50 200) [[0; 50; 200]; [100; 150; 255]].
Proof.
  apply apply_level_adjustment_floor; unfold uint8_grid, uint8;
    repeat constructor; lia.
Defined.

(** C2 (as stated) fails: the sample 2 with bounds 0 and 7 has the exact
    image 510/7 = 72.857..., whose nearest integer is 73; the code returns
    72. *)
Lemma apply_level_adjustment_not_nearest :
  apply_level_adjustment [[2]] 0 7
  <> map_grid (fun v => stretch_nearest v 0 7) [[2]].
Proof. vm_compute. discriminate. Qed.

(** C9: with [min_val = 0] and [max_val = 255] the level adjustment returns
    every eight-bit grid unchanged. *)
Theorem apply_level_adjustment_full_range (arr : grid) :
  uint8_grid arr -> apply_level_adjustment arr 0 255 = arr.
Proof.
  intros Harr. unfold apply_level_adjustment. simpl.
  rewrite <- (map_grid_id arr) at 2.
  apply map_grid_ext_uint8; [|exact Harr].
  intros v Hv. change 255 with (255 - 0) at 1.
  rewrite level_value_floor; unfold uint8 in *; try lia.
  unfold stretch_floor. rewrite Z.sub_0_r, Z.sub_0_r, Z.div_mul by lia. lia.
Qed.

Lemma apply_level_adjustment_full_range_witness :
  apply_level_adjustment [[0; 1; 127]; [128; 254; 255]] 0 255
  = [[0; 1; 127]; [128; 254; 255]].
Proof.
  apply apply_level_adjustment_full_range; unfold uint8_grid, uint8;
    repeat constructor; lia.
Defined.

(** ** Thresholding *)

Lemma sum_cons (x : Z) (l : list Z) : sum (x :: l) = x + sum l.
Proof. reflexivity. Qed.

Section PixelSums.

Lemma count_true_map_grid {A : Type} (p : A -> bool) (g : list (list A)) :
  count_true (map_grid p g) = grid_sum (fun v => indicator (p v)) g.
Proof.
  unfold count_true, grid_sum, map_grid. rewrite map_map.
  f_equal. apply map_ext. intros row. rewrite map_map. reflexivity.
Qed.

Lemma mask_and_map_grid {A : Type} (p q : A -> bool) (g : list (list A)) :
  mask_and (map_grid p g) (map_grid q g) = map_grid (fun v => p v && q v) g.
Proof.
  unfold mask_and, map_grid.
  induction g as [|row g IH]; simpl; [reflexivity|].
  f_equal; [|exact IH].
  induction row as [|v row IHrow]; simpl; [reflexivity|].
  f_equal. exact IHrow.
Qed.

Lemma map_grid_map_grid {A B C : Type} (f : A -> B) (h : B -> C)
    (g : list (list A)) :
  map_grid h (map_grid f g) = map_grid (fun v => h (f v)) g.
Proof.
  unfold map_grid. rewrite map_map. apply map_ext. intros row.
  apply map_map.
Qed.

Lemma grid_sum_ext {A : Type} (f1 f2 : A -> Z) (g : list (list A)) :
  (forall v, f1 v = f2 v) -> grid_sum f1 g = grid_sum f2 g.
Proof.
  intros H. unfold grid_sum. f_equal. apply map_ext. intros row.
  f_equal. apply map_ext. exact H.
Qed.

Lemma grid_sum_plus {A : Type} (f1 f2 : A -> Z) (g : list (list A)) :
  grid_sum f1 g + grid_sum f2 g = grid_sum (fun v => f1 v + f2 v) g.
Proof.
  unfold grid_sum. induction g as [|row g IH]; [reflexivity|].
  simpl map. rewrite !sum_cons, <- IH.
  assert (Hrow : sum (map f1 row) + sum (map f2 row)
                 = sum (map (fun v => f1 v + f2 v) row)).
  { clear. induction row as [|v row IHrow]; [reflexivity|].
    simpl map. rewrite !sum_cons. lia. }
  lia.
Qed.

Lemma grid_sum_one {A : Type} (g : list (list A)) (h w : nat) :
  length g = h /\ Forall (fun row => length row = w) g ->
  grid_sum (fun _ => 1) g = Z.of_nat h * Z.of_nat w.
Proof.
  intros [Hh Hw]. subst h. unfold grid_sum.
  induction Hw as [|row g Hrow _ IH]; [reflexivity|].
  simpl map. rewrite sum_cons, IH.
  assert (Hlen : sum (map (fun _ : A => 1) row) = Z.of_nat (length row)).
  { clear. induction row as [|v row IHrow]; [reflexivity|].
    simpl map. rewrite sum_cons, IHrow. simpl length. lia. }
  rewrite Hlen, Hrow. simpl length. lia.
Qed.

Lemma grid_sum_zero {A : Type} (g : list (list A)) :
  grid_sum (fun _ => 0) g = 0.
Proof.
  unfold grid_sum. induction g as [|row g IH]; [reflexivity|].
  simpl map. rewrite sum_cons, IH.
  assert (Hrow : sum (map (fun _ : A => 0) row) = 0).
  { clear. induction row as [|v row IHrow]; [reflexivity|].
    simpl map. rewrite sum_cons, IHrow. reflexivity. }
  rewrite Hrow. reflexivity.
Qed.

End PixelSums.

(** The mask of a joint class of two thresholded images, sample by sample. *)
Lemma joint_mask (arr : grid) (t1 t2 c1 c2 : Z) :
  mask_and (eq_scalar (apply_threshold arr t1) c1)
           (eq_scalar (apply_threshold arr t2) c2)
  = map_grid (fun v => ((if v <=? t1 then 0 else 255) =? c1)
                       && ((if v <=? t2 then 0 else 255) =? c2)) arr.
Proof.
  unfold eq_scalar, apply_threshold.
  rewrite !map_grid_map_grid. apply mask_and_map_grid.
Qed.

(** C5: for every grid of shape [h] by [w] and cutoffs [t1], [t2], with
    [B1 = apply_threshold G t1] and [B2 = apply_threshold G t2], the white
    count of [B1] is the both-white count plus the white-in-1-only count, and
    the four joint classes together count [h * w] pixels. *)
Theorem threshold_diff_invariant (arr : grid) (h w : nat) (t1 t2 : Z) :
  has_shape arr h w ->
  let bin1 := apply_threshold arr t1 in
  let bin2 := apply_threshold arr t2 in
  count_white bin1
  = count_true (mask_both_white bin1 bin2) + count_true (mask_diff bin1 bin2)
  /\ count_true (mask_both_white bin1 bin2)
     + count_true (mask_both_black bin1 bin2)
     + count_true (mask_diff bin1 bin2)
     + count_true (mask_white2_only bin1 bin2)
     = Z.of_nat h * Z.of_nat w.
Proof.
  intros Hshape bin1 bin2. subst bin1 bin2.
  unfold count_white, mask_both_white, mask_diff, mask_both_black,
    mask_white2_only.
  rewrite !joint_mask. unfold eq_scalar, apply_threshold.
  rewrite map_grid_map_grid, !count_true_map_grid. split.
  - rewrite grid_sum_plus. apply grid_sum_ext. intros v.
    destruct (v <=? t1), (v <=? t2); reflexivity.
  - rewrite !grid_sum_plus, <- (grid_sum_one arr h w Hshape).
    apply grid_sum_ext. intros v.
    destruct (v <=? t1), (v <=? t2); reflexivity.
Qed.

Lemma threshold_diff_invariant_witness :
  let arr := [[200; 50; 130]; [0; 255; 128]] in
  let bin1 := apply_threshold arr 100 in
  let bin2 := apply_threshold arr 129 in
  count_white bin1
  = count_true (mask_both_white bin1 bin2) + count_true (mask_diff bin1 bin2)
  /\ count_true (mask_both_white bin1 bin2)
     + count_true (mask_both_black bin1 bin2)
     + count_true (mask_diff bin1 bin2)
     + count_true (mask_white2_only bin1 bin2)
     = Z.of_nat 2 * Z.of_nat 3.
Proof.
  apply (threshold_diff_invariant [[200; 50; 130]; [0; 255; 128]] 2 3 100 129).
  split; [reflexivity | repeat constructor].
Defined.

(** The count that [on_threshold] reports as the difference is the count of
    the white-in-1-only class. *)
Lemma on_threshold_counts (t1 t2 : Z) (adjusted : grid) (histogram : list Z) :
  histogram <> [] ->
  on_threshold t1 t2 (Some adjusted) (Some histogram)
  = Some (mk_threshold_view
            (apply_threshold adjusted t1) (apply_threshold adjusted t2)
            (count_white (apply_threshold adjusted t1))
            (count_white (apply_threshold adjusted t2))
            (count_true (mask_diff (apply_threshold adjusted t1)
                                   (apply_threshold adjusted t2)))).
Proof. intros Hne. destruct histogram; [contradiction | reflexivity]. Qed.

Lemma pixel_map_grid (f : Z -> Z) (g : grid) (i j : nat) :
  pixel (map_grid f g) i j = option_map f (pixel g i j).
Proof.
  unfold pixel, map_grid. rewrite nth_error_map.
  destruct (nth_error g i) as [row|]; simpl; [|reflexivity].
  apply nth_error_map.
Qed.

(** C6: for every eight-bit grid and every cutoff [t] in [0, 255],
    thresholding the thresholded grid again at [t] changes nothing; a sample
    becomes 0 when it is at most [t] and 255 otherwise. *)
Theorem apply_threshold_idempotent (arr : grid) (t : Z) :
  uint8_grid arr -> 0 <= t <= 255 ->
  apply_threshold (apply_threshold arr t) t = apply_threshold arr t
  /\ forall i j v, pixel arr i j = Some v ->
       pixel (apply_threshold arr t) i j = Some (if v <=? t then 0 else 255).
Proof.
  intros Harr Ht. split.
  - unfold apply_threshold. rewrite map_grid_map_grid.
    apply map_grid_ext_uint8; [|exact Harr].
    intros v Hv. unfold uint8 in Hv.
    destruct (v <=? t) eqn:Hvt.
    + destruct (0 <=? t) eqn:H0; [reflexivity | apply Z.leb_gt in H0; lia].
    + apply Z.leb_gt in Hvt.
      destruct (255 <=? t) eqn:H255; [|reflexivity].
      apply Z.leb_le in H255. lia.
  - intros i j v Hpix. unfold apply_threshold.
    rewrite pixel_map_grid, Hpix. reflexivity.
Qed.

Lemma apply_threshold_idempotent_witness :
  apply_threshold (apply_threshold [[200; 50]; [100; 255]] 100) 100
  = apply_threshold [[200; 50]; [100; 255]] 100
  /\ forall i j v, pixel [[200; 50]; [100; 255]] i j = Some v ->
       pixel (apply_threshold [[200; 50]; [100; 255]] 100) i j
       = Some (if v <=? 100 then 0 else 255).
Proof.
  apply apply_threshold_idempotent; [|lia].
  unfold uint8_grid, uint8; repeat constructor; lia.
Defined.

(** C10: at the cutoff 255 every sample of an eight-bit grid, 255 included,
    becomes 0, so the thresholded grid has no white pixel. *)
Theorem apply_threshold_255_black (arr : grid) :
  uint8_grid arr ->
  apply_threshold arr 255 = map_grid (fun _ => 0) arr
  /\ count_white (apply_threshold arr 255) = 0.
Proof.
  intros Harr.
  assert (Hblack : apply_threshold arr 255 = map_grid (fun _ => 0) arr).
  { unfold apply_threshold. apply map_grid_ext_uint8; [|exact Harr].
    intros v Hv. unfold uint8 in Hv.
    destruct (v <=? 255) eqn:H; [reflexivity | apply Z.leb_gt in H; lia]. }
  split; [exact Hblack|].
  rewrite Hblack. unfold count_white, eq_scalar.
  rewrite map_grid_map_grid, count_true_map_grid.
  rewrite (grid_sum_ext _ (fun _ => 0)) by reflexivity.
  apply grid_sum_zero.
Qed.

Lemma apply_threshold_255_black_witness :
  apply_threshold [[255; 0]; [254; 255]] 255
  = map_grid (fun _ => 0) [[255; 0]; [254; 255]]
  /\ count_white (apply_threshold [[255; 0]; [254; 255]] 255) = 0.
Proof.
  apply apply_threshold_255_black.
  unfold uint8_grid, uint8; repeat constructor; lia.
Defined.

(** ** Median filter *)

Lemma zrange_length (lo : Z) (n : nat) : length (zrange lo n) = n.
Proof.
  revert lo. induction n as [|n IH]; intros lo; simpl; [|rewrite IH];
    reflexivity.
Qed.

Lemma zrange_bounds (lo : Z) (n : nat) (x : Z) :
  In x (zrange lo n) -> lo <= x < lo + Z.of_nat n.
Proof.
  revert lo. induction n as [|n IH]; intros lo Hin; [destruct Hin|].
  destruct Hin as [<- | Hin]; [lia|]. apply IH in Hin. lia.
Qed.

(** C3 (as the code has it): [apply_median] makes no check of the kernel
    size.  For a grid of shape [h] by [w], both at least 1, and every size
    [k >= 1], odd or even, it returns a filtered grid of the same shape. *)
Theorem apply_median_any_size (arr : grid) (h w : nat) (k : Z) :
  has_shape arr h w -> (1 <= h)%nat -> (1 <= w)%nat -> 1 <= k ->
  exists out, apply_median arr k = Some out /\ has_shape out h w.
Proof.
  intros [Hh Hw] _ _ Hk. unfold apply_median, median_filter.
  destruct (k <? 1) eqn:Hlt; [apply Z.ltb_lt in Hlt; lia|].
  eexists. split; [reflexivity|]. unfold has_shape, map_grid.
  rewrite !length_map, zrange_length. split; [exact Hh|].
  rewrite Forall_map, Forall_map. apply Forall_forall. intros i Hi.
  apply zrange_bounds in Hi.
  rewrite !length_map, zrange_length, Nat2Z.id.
  rewrite Forall_forall in Hw. apply Hw, nth_In. lia.
Qed.

Lemma apply_median_any_size_witness :
  exists out,
    apply_median [[1; 2; 3]; [4; 5; 6]] 2 = Some out /\ has_shape out 2 3.
Proof.
  apply (apply_median_any_size [[1; 2; 3]; [4; 5; 6]] 2 3 2); try lia.
  split; [reflexivity | repeat constructor].
Defined.

(** Only a size below 1 gives no output, by the exception of the library
    function. *)
Lemma apply_median_no_footprint (arr : grid) (k : Z) :
  k <= 0 -> apply_median arr k = None.
Proof.
  intros Hk. unfold apply_median, median_filter.
  destruct (k <? 1) eqn:Hlt; [reflexivity | apply Z.ltb_ge in Hlt; lia].
Qed.

(** C3 (as stated) fails: the even size 2 and the size 1, which is below 3,
    are both accepted and yield a filtered grid. *)
Lemma apply_median_accepts_even_and_small :
  apply_median [[128; 128]; [128; 128]] 2 = Some [[128; 128]; [128; 128]]
  /\ apply_median [[9; 7]; [5; 3]] 1 = Some [[9; 7]; [5; 3]].
Proof. split; vm_compute; reflexivity. Qed.

(** The filter on the sizes of the menu: a constant image is its own median
    image (scenario A), and a ramp is smoothed at its borders. *)
Example apply_median_constant :
  apply_median (repeat (repeat 128 4) 4) 3 = Some (repeat (repeat 128 4) 4).
Proof. vm_compute. reflexivity. Qed.

Example apply_median_ramp :
  apply_median [[1; 2; 3]; [4; 5; 6]; [7; 8; 9]] 3
  = Some [[2; 3; 3]; [4; 5; 6]; [7; 7; 8]].
Proof. vm_compute. reflexivity. Qed.

(** ** The crop callback *)

Lemma bind_call_log {A O : Type} (s : stage) (r : option A)
    (k : A -> traced O) :
  exists rest, fst (finish (bind (call s r) k)) = s :: rest.
Proof.
  unfold finish, bind, call. destruct r as [x|].
  - destruct (k x) as [log [o|]]; eexists; reflexivity.
  - eexists; reflexivity.
Qed.

(** C7: when the crop bounds computed by [on_apply] (ordered, rounded and
    clamped) span fewer than 2 columns or fewer than 2 rows, the callback
    calls no stage of the pipeline and answers [no_update] for every output,
    so that the properties it writes keep their values. *)
Theorem on_apply_degenerate_noop (current : apply_outputs) (n_clicks : Z)
    (original : grid) (crop : crop_coords) (kernel_size x0 x1 y0 y1 : Z) :
  crop_box crop (Z.of_nat (length original))
           (Z.of_nat (length (hd [] original))) = (x0, x1, y0, y1) ->
  x1 - x0 < 2 \/ y1 - y0 < 2 ->
  on_apply n_clicks (Some original) (Some crop) kernel_size = ([], NoUpdate)
  /\ dash_update current
       (snd (on_apply n_clicks (Some original) (Some crop) kernel_size))
     = current.
Proof.
  intros Hbox Hsmall.
  assert (Hnoop : on_apply n_clicks (Some original) (Some crop) kernel_size
                  = ([], NoUpdate)).
  { unfold on_apply. rewrite Hbox.
    destruct ((x1 - x0 <? 2) || (y1 - y0 <? 2)) eqn:Htest; [reflexivity|].
    apply orb_false_iff in Htest. destruct Htest as [Hx Hy].
    apply Z.ltb_ge in Hx, Hy. lia. }
  split; [exact Hnoop|]. rewrite Hnoop. reflexivity.
Qed.

Lemma on_apply_degenerate_noop_witness :
  let original := repeat (repeat 128 4) 4 in
  let crop := mk_crop 1 0 (5 # 2) 4 in
  let current :=
    mk_apply_outputs [] [] [] [] [] [] [] (0, 0, 0) NoteSpread false [] []
      false false false 128 200 in
  on_apply 1 (Some original) (Some crop) 3 = ([], NoUpdate)
  /\ dash_update current (snd (on_apply 1 (Some original) (Some crop) 3))
     = current.
Proof.
  apply (on_apply_degenerate_noop _ 1 (repeat (repeat 128 4) 4)
           (mk_crop 1 0 (5 # 2) 4) 3 1 2 0 4).
  - vm_compute. reflexivity.
  - left. lia.
Defined.

(** With a crop of at least 2 by 2 the callback does go on to the median
    filter. *)
Lemma on_apply_proceeds (n_clicks : Z) (original : grid) (crop : crop_coords)
    (kernel_size x0 x1 y0 y1 : Z) :
  crop_box crop (Z.of_nat (length original))
           (Z.of_nat (length (hd [] original))) = (x0, x1, y0, y1) ->
  2 <= x1 - x0 -> 2 <= y1 - y0 ->
  exists rest,
    fst (on_apply n_clicks (Some original) (Some crop) kernel_size)
    = MedianFilter :: rest.
Proof.
  intros Hbox Hx Hy. unfold on_apply. rewrite Hbox.
  destruct ((x1 - x0 <? 2) || (y1 - y0 <? 2)) eqn:Htest.
  - apply orb_true_iff in Htest. destruct Htest as [H|H];
      apply Z.ltb_lt in H; lia.
  - apply bind_call_log.
Qed.

(** ** The results table *)

Lemma filter_group_rev (digits : list ascii) (k : nat) :
  filter not_comma (group_rev digits k) = filter not_comma digits.
Proof.
  revert k. induction digits as [|c rest IH]; intros k; [reflexivity|].
  simpl. destruct (Nat.eqb k 3); simpl; rewrite IH; reflexivity.
Qed.

Lemma digits_no_comma (d : Decimal.uint) :
  filter not_comma (list_ascii_of_string (NilEmpty.string_of_uint d))
  = list_ascii_of_string (NilEmpty.string_of_uint d).
Proof. induction d; simpl; rewrite ?IHd; reflexivity. Qed.

Lemma py_str_no_comma (n : Z) :
  0 <= n ->
  filter not_comma (list_ascii_of_string (py_str n))
  = list_ascii_of_string (py_str n).
Proof.
  intros Hn. unfold py_str. destruct n as [|p|p]; [reflexivity | | lia].
  simpl Z.to_int. unfold NilZero.string_of_int, NilZero.string_of_uint.
  destruct (Pos.to_uint p); try apply digits_no_comma. reflexivity.
Qed.

Lemma remove_commas_format_commas (n : Z) :
  0 <= n -> remove_commas (format_commas n) = py_str n.
Proof.
  intros Hn. unfold remove_commas, format_commas.
  destruct (n <? 0) eqn:Hneg; [apply Z.ltb_lt in Hneg; lia|].
  rewrite Z.abs_eq by exact Hn.
  rewrite list_ascii_of_string_of_list_ascii.
  rewrite filter_rev, filter_group_rev, <- filter_rev, rev_involutive.
  rewrite (py_str_no_comma n Hn). apply string_of_list_ascii_of_string.
Qed.

Lemma py_int_py_str (n : Z) : py_int (py_str n) = Some n.
Proof.
  unfold py_int, py_str. rewrite NilZero.isi.
  - simpl. rewrite DecimalZ.of_to. reflexivity.
  - destruct n as [|p|p]; try discriminate.
    simpl. intros [= H]. exact (Unsigned.to_uint_nonnil p H).
  - destruct n as [|p|p]; try discriminate.
    simpl. intros [= H]. exact (Unsigned.to_uint_nonnil p H).
Qed.

(** The text of a count reads back as the count. *)
Lemma count_text_roundtrip (n : Z) :
  0 <= n -> py_int (remove_commas (format_commas n)) = Some n.
Proof.
  intros Hn. rewrite (remove_commas_format_commas n Hn). apply py_int_py_str.
Qed.

Lemma count_text_not_dash (n : Z) :
  0 <= n -> String.eqb (format_commas n) em_dash = false.
Proof.
  intros Hn. destruct (String.eqb (format_commas n) em_dash) eqn:Heq;
    [|reflexivity].
  apply String.eqb_eq in Heq.
  pose proof (count_text_roundtrip n Hn) as Hrt. rewrite Heq in Hrt.
  vm_compute in Hrt. discriminate.
Qed.



Lemma two_digits_checked :
  forallb (fun k => Nat.eqb (String.length (two_digits k)) 2) (zrange 0 100)
  = true.
Proof. vm_compute. reflexivity. Qed.

(** The ratio text of a finite value has exactly two decimals. *)
Lemma format_2f_two_decimals (x : float) (s : bool) (m : positive) (e : Z) :
  Prim2SF x = S754_finite s m e ->
  exists whole frac,
    format_2f x = (whole ++ "." ++ frac)%string /\ String.length frac = 2%nat.
Proof.
  intros Hx. unfold format_2f. rewrite Hx.
  exists ((if s then "-" else "") ++ py_str (hundredths m e / 100))%string,
         (two_digits (hundredths m e mod 100)).
  split.
  - destruct s; simpl; [f_equal|]; 
      generalize (py_str (hundredths m e / 100)); intros w;
      induction w as [|c w IH]; simpl; [reflexivity | f_equal; exact IH].
  - apply Nat.eqb_eq.
    refine (forallb_zrange _ 0 100 _ two_digits_checked _).
    pose proof (Z.mod_pos_bound (hundredths m e) 100). lia.
Qed.

(** * Further properties of the pipeline *)

(** ** Histogram counts *)

Lemma indicator_sum_zrange (x lo : Z) (n : nat) :
  sum (map (fun level => if Z.eq_dec x level then 1 else 0) (zrange lo n))
  = if (lo <=? x) && (x <? lo + Z.of_nat n) then 1 else 0.
Proof.
  revert lo. induction n as [|n IH]; intros lo.
  - simpl. destruct (lo <=? x) eqn:H1; destruct (x <? lo + 0) eqn:H2;
      try reflexivity. apply Z.leb_le in H1. apply Z.ltb_lt in H2. lia.
  - cbn [zrange map]. rewrite sum_cons, IH.
    destruct (Z.eq_dec x lo) as [->|Hne].
    + replace (lo + 1 <=? lo) with false by (symmetry; apply Z.leb_gt; lia).
      replace (lo <=? lo) with true by (symmetry; apply Z.leb_le; lia).
      replace (lo <? lo + Z.of_nat (S n)) with true
        by (symmetry; apply Z.ltb_lt; lia).
      reflexivity.
    + destruct (lo + 1 <=? x) eqn:H1; destruct (lo <=? x) eqn:H2;
        destruct (x <? lo + 1 + Z.of_nat n) eqn:H3;
        destruct (x <? lo + Z.of_nat (S n)) eqn:H4; try reflexivity;
        rewrite ?Z.leb_le, ?Z.leb_gt, ?Z.ltb_lt, ?Z.ltb_ge in *; lia.
Qed.

Lemma count_occ_range (flat : list Z) (lo : Z) (n : nat) :
  sum (map (fun level => Z.of_nat (count_occ Z.eq_dec flat level))
           (zrange lo n))
  = sum (map (fun v => if (lo <=? v) && (v <? lo + Z.of_nat n) then 1 else 0)
             flat).
Proof.
  induction flat as [|x flat IH].
  - simpl. induction (zrange lo n) as [|l ls IHl]; [reflexivity|].
    simpl map. rewrite sum_cons, IHl. reflexivity.
  - rewrite <- (map_ext
      (fun level => (if Z.eq_dec x level then 1 else 0)
                    + Z.of_nat (count_occ Z.eq_dec flat level))).
    2:{ intros level. simpl. destruct (Z.eq_dec x level); lia. }
    assert (Hsplit : forall (f g : Z -> Z) (ls : list Z),
               sum (map (fun l => f l + g l) ls)
               = sum (map f ls) + sum (map g ls)).
    { intros f g ls. induction ls as [|l ls IHl]; [reflexivity|].
      simpl map. rewrite !sum_cons, IHl. lia. }
    rewrite Hsplit, IH, indicator_sum_zrange.
    simpl map. rewrite sum_cons. reflexivity.
Qed.

Lemma count_occ_sum (flat : list Z) (lo : Z) (n : nat) :
  Forall (fun v => lo <= v < lo + Z.of_nat n) flat ->
  sum (map (fun level => Z.of_nat (count_occ Z.eq_dec flat level))
           (zrange lo n))
  = Z.of_nat (length flat).
Proof.
  intros Hflat. rewrite count_occ_range.
  induction Hflat as [|x flat Hx _ IH]; [reflexivity|].
  simpl map. rewrite sum_cons, IH.
  replace (lo <=? x) with true by (symmetry; apply Z.leb_le; lia).
  replace (x <? lo + Z.of_nat n) with true by (symmetry; apply Z.ltb_lt; lia).
  simpl length. simpl andb. cbv iota. lia.
Qed.

Lemma max_sample_bound (flat : list Z) :
  Forall uint8 flat -> 0 <= fold_right Z.max 0 flat <= 255.
Proof. unfold uint8. induction 1; simpl; lia. Qed.

Lemma uint8_flat (arr : grid) : uint8_grid arr -> Forall uint8 (concat arr).
Proof.
  unfold uint8_grid. induction 1 as [|row arr Hrow _ IH]; simpl.
  - constructor.
  - apply Forall_app. split; assumption.
Qed.

Lemma compute_histogram_uint8 (arr : grid) :
  uint8_grid arr ->
  compute_histogram arr
  = map (fun level => Z.of_nat (count_occ Z.eq_dec (concat arr) level))
        (zrange 0 256).
Proof.
  intros Harr. unfold compute_histogram.
  pose proof (max_sample_bound _ (uint8_flat arr Harr)) as Hmax.
  replace (Z.max 256 (fold_right Z.max 0 (concat arr) + 1)) with 256 by lia.
  reflexivity.
Qed.

Lemma length_concat_shape (arr : grid) (h w : nat) :
  has_shape arr h w -> length (concat arr) = (h * w)%nat.
Proof.
  intros [Hh Hw]. subst h. induction Hw as [|row arr Hrow _ IH];
    [reflexivity|].
  simpl. rewrite length_app, IH, Hrow. reflexivity.
Qed.

Lemma Forall_map_of_nat (f : Z -> nat) (ls : list Z) :
  Forall (fun h => 0 <= h) (map (fun level => Z.of_nat (f level)) ls).
Proof. apply Forall_map, Forall_forall. intros; lia. Qed.

Lemma compute_histogram_length (arr : grid) :
  uint8_grid arr -> length (compute_histogram arr) = 256%nat.
Proof.
  intros Harr. rewrite (compute_histogram_uint8 arr Harr).
  rewrite length_map, zrange_length. reflexivity.
Qed.

Lemma compute_histogram_nonneg (arr : grid) :
  Forall (fun bin => 0 <= bin) (compute_histogram arr).
Proof. unfold compute_histogram. apply Forall_map_of_nat. Qed.

Lemma compute_histogram_sum (arr : grid) (h w : nat) :
  uint8_grid arr -> has_shape arr h w ->
  sum (compute_histogram arr) = Z.of_nat h * Z.of_nat w.
Proof.
  intros Harr Hshape. rewrite (compute_histogram_uint8 arr Harr).
  rewrite (count_occ_sum (concat arr) 0 256).
  - rewrite (length_concat_shape arr h w Hshape). lia.
  - eapply Forall_impl; [|apply uint8_flat, Harr].
    unfold uint8. intros v Hv. lia.
Qed.

(** X1: the histogram of an eight-bit grid of shape [h] by [w] has 256 bins,
    none negative, which together count the [h * w] pixels. *)
Theorem compute_histogram_invariant (arr : grid) (h w : nat) :
  uint8_grid arr -> has_shape arr h w ->
  length (compute_histogram arr) = 256%nat
  /\ Forall (fun bin => 0 <= bin) (compute_histogram arr)
  /\ sum (compute_histogram arr) = Z.of_nat h * Z.of_nat w.
Proof.
  intros Harr Hshape. split; [|split].
  - apply compute_histogram_length, Harr.
  - apply compute_histogram_nonneg.
  - apply compute_histogram_sum; assumption.
Qed.

Lemma compute_histogram_invariant_witness :
  length (compute_histogram [[0; 255; 7]; [7; 7; 1]]) = 256%nat
  /\ Forall (fun bin => 0 <= bin) (compute_histogram [[0; 255; 7]; [7; 7; 1]])
  /\ sum (compute_histogram [[0; 255; 7]; [7; 7; 1]])
     = Z.of_nat 2 * Z.of_nat 3.
Proof.
  apply compute_histogram_invariant.
  - unfold uint8_grid, uint8; repeat constructor; lia.
  - split; [reflexivity | repeat constructor].
Defined.


(** ** Threshold counts read off the histogram *)

Lemma grid_sum_concat {A : Type} (f : A -> Z) (g : list (list A)) :
  grid_sum f g = sum (map f (concat g)).
Proof.
  unfold grid_sum. induction g as [|row g IH]; [reflexivity|].
  simpl. rewrite map_app, sum_app, <- IH. reflexivity.
Qed.


Lemma skipn_zrange (k : nat) (lo : Z) (n : nat) :
  skipn k (zrange lo n) = zrange (lo + Z.of_nat k) (n - k).
Proof.
  revert lo n. induction k as [|k IH]; intros lo n.
  - simpl. rewrite Z.add_0_r, Nat.sub_0_r. reflexivity.
  - destruct n as [|n]; [reflexivity|].
    cbn [zrange skipn]. rewrite IH. f_equal; lia.
Qed.

(** X11: for an eight-bit grid and a cutoff [t] in [0, 255], the white count
    of the thresholded grid is the sum of the histogram bins above [t]. *)
Theorem count_white_from_histogram (arr : grid) (t : Z) :
  uint8_grid arr -> 0 <= t <= 255 ->
  count_white (apply_threshold arr t)
  = sum (skipn (Z.to_nat (t + 1)) (compute_histogram arr)).
Proof.
  intros Harr Ht. rewrite (compute_histogram_uint8 arr Harr).
  rewrite skipn_map, skipn_zrange, count_occ_range.
  unfold count_white, eq_scalar, apply_threshold.
  rewrite map_grid_map_grid, count_true_map_grid, grid_sum_concat.
  f_equal. apply map_ext_in. intros v Hv.
  pose proof (uint8_flat arr Harr) as Hflat.
  rewrite Forall_forall in Hflat. specialize (Hflat v Hv). unfold uint8 in Hflat.
  destruct (v <=? t) eqn:H1;
    destruct (0 + Z.of_nat (Z.to_nat (t + 1)) <=? v) eqn:H2;
    destruct (v <? 0 + Z.of_nat (Z.to_nat (t + 1))
                   + Z.of_nat (256 - Z.to_nat (t + 1))) eqn:H3;
    try reflexivity;
    rewrite ?Z.leb_le, ?Z.leb_gt, ?Z.ltb_lt, ?Z.ltb_ge in *; lia.
Qed.

Lemma count_white_from_histogram_witness :
  count_white (apply_threshold [[200; 50; 130]; [0; 255; 128]] 128)
  = sum (skipn (Z.to_nat (128 + 1))
               (compute_histogram [[200; 50; 130]; [0; 255; 128]])).
Proof.
  apply count_white_from_histogram; [|lia].
  unfold uint8_grid, uint8; repeat constructor; lia.
Defined.


(** ** Percentile bounds *)

(** What the two loops of [analyse_histogram] find on a histogram of 256
    non-negative bins with a positive total. *)
Lemma analyse_histogram_scans (hist : list Z) :
  length hist = 256%nat -> Forall (fun h => 0 <= h) hist -> 0 < sum hist ->
  exists i j : nat,
    analyse_histogram hist
    = Some (mk_analysis (Z.of_nat j - Z.of_nat i <? 200)
                        (Z.of_nat i) (Z.of_nat j))
    /\ (i < 256)%nat /\ (j < 256)%nat
    /\ ge_one_percent (sum (firstn (S i) hist)) (sum hist) = true
    /\ ge_one_percent (sum (firstn i hist)) (sum hist) = false
    /\ ge_one_percent (sum (skipn j hist)) (sum hist) = true
    /\ ge_one_percent (sum (skipn (S j) hist)) (sum hist) = false.
Proof.
  intros Hlen Hnn Hpos. unfold analyse_histogram.
  destruct (sum hist =? 0) eqn:Hz; [apply Z.eqb_eq in Hz; lia|]. clear Hz.
  destruct (scan_up_spec hist (sum hist) 0 256 0) as [mn [Hmn Hup]].
  { rewrite Hlen. lia. }
  { simpl. apply ge_one_percent_zero, Hpos. }
  destruct (scan_down_spec hist (sum hist) 255 256) as [mx [Hmx Hdown]].
  { rewrite Hlen. lia. }
  { rewrite <- Hlen, skipn_all. apply ge_one_percent_zero, Hpos. }
  rewrite <- Hlen, skipn_all in Hmx. rewrite Hlen in Hmx.
  change (sum (firstn 0 hist)) with 0 in Hmn.
  unfold range_up, range_down. change (sum []) with 0 in Hmx.
  rewrite Hmn, Hmx.
  pose proof (ge_one_percent_total (sum hist) Hpos) as Htot.
  destruct Hup as [[_ Hno] | [i [-> [Hi [Hi1 Hi2]]]]].
  { replace (0 + 256)%nat with (length hist) in Hno
      by (rewrite Hlen; reflexivity).
    rewrite firstn_all in Hno. congruence. }
  destruct Hdown as [[_ Hno] | [j [-> [Hj [Hj1 Hj2]]]]].
  { congruence. }
  exists i, j. repeat split; try assumption; lia.
Qed.

Lemma sum_skipn_mono (l : list Z) (a b : nat) :
  Forall (fun h => 0 <= h) l -> (a <= b)%nat ->
  sum (skipn b l) <= sum (skipn a l).
Proof.
  intros Hl Hab.
  pose proof (sum_firstn_mono l a b Hl Hab).
  pose proof (sum_firstn_skipn a l). pose proof (sum_firstn_skipn b l). lia.
Qed.

Lemma ge_one_percent_mono (p q total : Z) :
  0 < total -> p <= q ->
  ge_one_percent p total = true -> ge_one_percent q total = true.
Proof.
  unfold ge_one_percent, tail_midpoint. intros Ht Hpq.
  destruct (0 <? total) eqn:H; [|apply Z.ltb_ge in H; lia].
  intros Hp. apply Z.ltb_lt in Hp. apply Z.ltb_lt. lia.
Qed.

(** X2: for a histogram of 256 non-negative bins with a positive total
    below [2^53], [min_val] is the least level [i] at which the bins [0..i]
    hold at least one hundredth of the total, and [max_val] is the greatest
    level [j] at which the bins [j..255] do; [min_val <= max_val]. *)
Theorem analyse_histogram_percentiles (hist : list Z) :
  length hist = 256%nat -> Forall (fun h => 0 <= h) hist ->
  0 < sum hist < 2 ^ 53 ->
  exists i j : nat,
    analyse_histogram hist
    = Some (mk_analysis (Z.of_nat j - Z.of_nat i <? 200)
                        (Z.of_nat i) (Z.of_nat j))
    /\ (i <= j < 256)%nat
    /\ sum hist <= 100 * sum (firstn (S i) hist)
    /\ (forall k, (k < i)%nat -> 100 * sum (firstn (S k) hist) < sum hist)
    /\ sum hist <= 100 * sum (skipn j hist)
    /\ (forall k, (j < k)%nat -> 100 * sum (skipn k hist) < sum hist).
Proof.
  intros Hlen Hnn Htot.
  destruct (analyse_histogram_scans hist Hlen Hnn) as
    [i [j [Hres [Hi [Hj [Hi1 [Hi2 [Hj1 Hj2]]]]]]]]; [lia|].
  rewrite !ge_one_percent_exact in * by exact Htot.
  apply Z.leb_le in Hi1, Hj1. apply Z.leb_gt in Hi2, Hj2.
  exists i, j. split; [exact Hres|].
  assert (Hij : (i <= j)%nat).
  { destruct (Nat.le_gt_cases i j) as [H|H]; [exact H|]. exfalso.
    pose proof (sum_firstn_mono hist (S j) i Hnn H).
    pose proof (sum_firstn_skipn (S j) hist). lia. }
  repeat split; try assumption; try lia.
  - intros k Hk. pose proof (sum_firstn_mono hist (S k) i Hnn Hk). lia.
  - intros k Hk. pose proof (sum_skipn_mono hist (S j) k Hnn Hk). lia.
Qed.

Lemma analyse_histogram_percentiles_witness :
  let hist := repeat 0 100 ++ repeat 10 51 ++ repeat 0 105 in
  exists i j : nat,
    analyse_histogram hist
    = Some (mk_analysis (Z.of_nat j - Z.of_nat i <? 200)
                        (Z.of_nat i) (Z.of_nat j))
    /\ (i <= j < 256)%nat
    /\ sum hist <= 100 * sum (firstn (S i) hist)
    /\ (forall k, (k < i)%nat -> 100 * sum (firstn (S k) hist) < sum hist)
    /\ sum hist <= 100 * sum (skipn j hist)
    /\ (forall k, (j < k)%nat -> 100 * sum (skipn k hist) < sum hist).
Proof.
  apply (analyse_histogram_percentiles
           (repeat 0 100 ++ repeat 10 51 ++ repeat 0 105)).
  - reflexivity.
  - repeat (apply Forall_app; split); apply Forall_forall; intros x Hx;
      apply repeat_spec in Hx; lia.
  - split; vm_compute; reflexivity.
Defined.


(** X3: when the bins below level [a] and above level [b] of a 256-bin
    histogram hold no pixel, the analysis returns bounds with
    [a <= min_val <= max_val <= b]. *)
Theorem analyse_histogram_support (hist : list Z) (a b : nat) :
  length hist = 256%nat -> Forall (fun h => 0 <= h) hist -> 0 < sum hist ->
  sum (firstn a hist) = 0 -> sum (skipn (S b) hist) = 0 ->
  exists r, analyse_histogram hist = Some r
            /\ Z.of_nat a <= min_val r /\ min_val r <= max_val r
            /\ max_val r <= Z.of_nat b.
Proof.
  intros Hlen Hnn Hpos Hlow Hhigh.
  destruct (analyse_histogram_scans hist Hlen Hnn Hpos) as
    [i [j [Hres [Hi [Hj [Hi1 [Hi2 [Hj1 Hj2]]]]]]]].
  eexists. split; [exact Hres|]. simpl.
  pose proof (ge_one_percent_zero (sum hist) Hpos) as Hzero.
  assert (Hai : (a <= i)%nat).
  { destruct (Nat.le_gt_cases a i) as [H|H]; [exact H|]. exfalso.
    pose proof (sum_firstn_mono hist (S i) a Hnn H) as Hm.
    pose proof (sum_firstn_mono hist 0 (S i) Hnn (Nat.le_0_l _)) as H0.
    change (sum (firstn 0 hist)) with 0 in H0.
    replace (sum (firstn (S i) hist)) with 0 in Hi1 by lia. congruence. }
  assert (Hjb : (j <= b)%nat).
  { destruct (Nat.le_gt_cases j b) as [H|H]; [exact H|]. exfalso.
    pose proof (sum_skipn_mono hist (S b) j Hnn H) as Hm.
    pose proof (sum_skipn_mono hist j (length hist) Hnn) as H0.
    rewrite skipn_all in H0. change (sum []) with 0 in H0.
    replace (sum (skipn j hist)) with 0 in Hj1 by lia. congruence. }
  assert (Hij : (i <= j)%nat).
  { destruct (Nat.le_gt_cases i j) as [H|H]; [exact H|]. exfalso.
    pose proof (two_tails_short (sum hist) Hpos _ _ Hi2 Hj2).
    pose proof (sum_firstn_mono hist (S j) i Hnn H).
    pose proof (sum_firstn_skipn (S j) hist). lia. }
  lia.
Qed.

Lemma analyse_histogram_support_witness :
  exists r,
    analyse_histogram (repeat 0 100 ++ repeat 10 51 ++ repeat 0 105) = Some r
    /\ Z.of_nat 100 <= min_val r /\ min_val r <= max_val r
    /\ max_val r <= Z.of_nat 150.
Proof.
  apply analyse_histogram_support.
  - reflexivity.
  - repeat (apply Forall_app; split); apply Forall_forall; intros x Hx;
      apply repeat_spec in Hx; lia.
  - vm_compute. reflexivity.
  - vm_compute. reflexivity.
  - vm_compute. reflexivity.
Defined.


(** X4: on every histogram of 256 non-negative bins [analyse_histogram]
    returns an analysis (no exception) whose bounds lie in [0, 255]; on the
    empty histogram it is [skewed = false], [min_val = 0], [max_val = 255]. *)
Theorem analyse_histogram_total (hist : list Z) :
  length hist = 256%nat -> Forall (fun h => 0 <= h) hist ->
  exists r, analyse_histogram hist = Some r
            /\ 0 <= min_val r <= 255 /\ 0 <= max_val r <= 255
            /\ (sum hist = 0 -> r = mk_analysis false 0 255).
Proof.
  intros Hlen Hnn.
  pose proof (sum_nonneg hist Hnn) as H0.
  destruct (Z.eq_dec (sum hist) 0) as [Hz|Hnz].
  - exists (mk_analysis false 0 255). unfold analyse_histogram.
    rewrite Hz. simpl. repeat split; lia.
  - destruct (analyse_histogram_scans hist Hlen Hnn) as
      [i [j [Hres [Hi [Hj _]]]]]; [lia|].
    eexists. split; [exact Hres|]. simpl. repeat split; lia.
Qed.

Lemma analyse_histogram_total_witness :
  exists r,
    analyse_histogram (repeat 0 256) = Some r
    /\ 0 <= min_val r <= 255 /\ 0 <= max_val r <= 255
    /\ (sum (repeat 0 256) = 0 -> r = mk_analysis false 0 255).
Proof.
  apply analyse_histogram_total.
  - reflexivity.
  - apply Forall_forall; intros x Hx; apply repeat_spec in Hx; lia.
Defined.


(** X5: a histogram of fewer than 256 bins whose total is not zero makes
    [analyse_histogram] raise the [IndexError] of [hist[255]] (at the latest
    in the descending loop). *)
Theorem analyse_histogram_short (hist : list Z) :
  (length hist < 256)%nat -> sum hist <> 0 -> analyse_histogram hist = None.
Proof.
  intros Hlen Hnz. unfold analyse_histogram.
  destruct (sum hist =? 0) eqn:Hz; [apply Z.eqb_eq in Hz; contradiction|].
  destruct (percentile_scan hist (sum hist) range_up 0 0); [|reflexivity].
  change range_down with (255%nat :: rev (seq 0 255)).
  cbn [percentile_scan].
  replace (nth_error hist 255) with (@None Z); [reflexivity|].
  symmetry. apply nth_error_None. lia.
Qed.

Lemma analyse_histogram_short_witness :
  analyse_histogram [1; 2; 3] = None.
Proof.
  apply analyse_histogram_short; [simpl; lia | discriminate].
Defined.


(** ** Level adjustment, sample by sample *)

Lemma pixel_uint8 (arr : grid) (i j : nat) (v : Z) :
  uint8_grid arr -> pixel arr i j = Some v -> uint8 v.
Proof.
  unfold uint8_grid, pixel. intros Harr Hpix.
  destruct (nth_error arr i) as [row|] eqn:Hrow; [|discriminate].
  apply nth_error_In in Hrow, Hpix.
  rewrite Forall_forall in Harr. specialize (Harr row Hrow).
  rewrite Forall_forall in Harr. exact (Harr v Hpix).
Qed.

Lemma map_grid_shape {A B : Type} (f : A -> B) (g : list (list A))
    (h w : nat) :
  length g = h /\ Forall (fun row => length row = w) g ->
  length (map_grid f g) = h
  /\ Forall (fun row => length row = w) (map_grid f g).
Proof.
  intros [Hh Hw]. unfold map_grid. split; [rewrite length_map; exact Hh|].
  apply Forall_map. eapply Forall_impl; [|exact Hw].
  intros row Hrow. simpl. rewrite length_map. exact Hrow.
Qed.

Lemma map_grid_uint8 (f : Z -> Z) (arr : grid) :
  (forall v, uint8 (f v)) -> uint8_grid (map_grid f arr).
Proof.
  intros Hf. unfold uint8_grid, map_grid.
  apply Forall_map, Forall_forall. intros row _.
  apply Forall_map, Forall_forall. intros v _. apply Hf.
Qed.

Lemma float_to_uint8_range (x : float) : uint8 (float_to_uint8 x).
Proof.
  unfold uint8, float_to_uint8. destruct (Prim2SF x) as [s|s| |s m e]; try lia.
  pose proof (Z.mod_pos_bound (if s then - Z.shiftl (Z.pos m) e
                               else Z.shiftl (Z.pos m) e) 256).
  lia.
Qed.

Lemma level_adjustment_keeps_uint8 (arr : grid) (mn mx : Z) :
  uint8_grid arr -> uint8_grid (apply_level_adjustment arr mn mx).
Proof.
  intros Harr. unfold apply_level_adjustment.
  destruct (mx - mn <=? 0); [exact Harr|].
  apply map_grid_uint8. intros v. apply float_to_uint8_range.
Qed.

Lemma level_adjustment_keeps_shape (arr : grid) (h w : nat) (mn mx : Z) :
  has_shape arr h w -> has_shape (apply_level_adjustment arr mn mx) h w.
Proof.
  intros Hshape. unfold apply_level_adjustment.
  destruct (mx - mn <=? 0); [exact Hshape|].
  apply map_grid_shape, Hshape.
Qed.




Lemma stretch_floor_low (v mn mx : Z) :
  mn < mx -> v <= mn -> stretch_floor v mn mx = 0.
Proof.
  intros Hlt Hv. unfold stretch_floor.
  assert ((v - mn) * 255 / (mx - mn) <= 0)
    by (apply Z.div_le_upper_bound; nia).
  lia.
Qed.

Lemma stretch_floor_high (v mn mx : Z) :
  mn < mx -> mx <= v -> stretch_floor v mn mx = 255.
Proof.
  intros Hlt Hv. unfold stretch_floor.
  assert (255 <= (v - mn) * 255 / (mx - mn))
    by (apply Z.div_le_lower_bound; nia).
  lia.
Qed.

Lemma stretch_floor_mono (v v' mn mx : Z) :
  mn < mx -> v <= v' -> stretch_floor v mn mx <= stretch_floor v' mn mx.
Proof.
  intros Hlt Hv. unfold stretch_floor.
  assert ((v - mn) * 255 / (mx - mn) <= (v' - mn) * 255 / (mx - mn))
    by (apply Z.div_le_mono; nia).
  lia.
Qed.

Lemma pixel_level (arr : grid) (mn mx : Z) (i j : nat) (v : Z) :
  uint8_grid arr -> uint8 mn -> uint8 mx -> mn < mx ->
  pixel arr i j = Some v ->
  pixel (apply_level_adjustment arr mn mx) i j
  = Some (stretch_floor v mn mx).
Proof.
  intros Harr Hmn Hmx Hlt Hpix. unfold apply_level_adjustment.
  destruct (mx - mn <=? 0) eqn:Hr; [apply Z.leb_le in Hr; lia|].
  rewrite pixel_map_grid, Hpix. simpl. f_equal.
  apply level_value_floor; try assumption.
  exact (pixel_uint8 arr i j v Harr Hpix).
Qed.

(** X7: with eight-bit bounds [min_val < max_val], a sample at or below
    [min_val] becomes 0 and a sample at or above [max_val] becomes 255. *)
Theorem apply_level_adjustment_saturates (arr : grid) (mn mx : Z)
    (i j : nat) (v : Z) :
  uint8_grid arr -> uint8 mn -> uint8 mx -> mn < mx ->
  pixel arr i j = Some v ->
  exists out,
    pixel (apply_level_adjustment arr mn mx) i j = Some out
    /\ (v <= mn -> out = 0) /\ (mx <= v -> out = 255).
Proof.
  intros Harr Hmn Hmx Hlt Hpix. eexists. split.
  - apply pixel_level; eassumption.
  - split; intros Hv;
      [apply stretch_floor_low | apply stretch_floor_high]; assumption.
Qed.

Lemma apply_level_adjustment_saturates_witness :
  exists out,
    pixel (apply_level_adjustment [[0; 50; 200]; [100; 150; 255]] 50 200) 0 1
    = Some out
    /\ (50 <= 50 -> out = 0) /\ (200 <= 50 -> out = 255).
Proof.
  apply (apply_level_adjustment_saturates
           [[0; 50; 200]; [100; 150; 255]] 50 200 0 1 50);
    try (unfold uint8; lia); try reflexivity.
  unfold uint8_grid, uint8; repeat constructor; lia.
Defined.


(** X8: with eight-bit bounds [min_val < max_val] the level adjustment
    keeps the order of the samples: a sample that is not brighter than
    another is not brighter after the adjustment. *)
Theorem apply_level_adjustment_monotone (arr : grid) (mn mx : Z)
    (i j i' j' : nat) (v v' out out' : Z) :
  uint8_grid arr -> uint8 mn -> uint8 mx -> mn < mx ->
  pixel arr i j = Some v -> pixel arr i' j' = Some v' ->
  pixel (apply_level_adjustment arr mn mx) i j = Some out ->
  pixel (apply_level_adjustment arr mn mx) i' j' = Some out' ->
  v <= v' -> out <= out'.
Proof.
  intros Harr Hmn Hmx Hlt Hv Hv' Hout Hout' Hle.
  rewrite (pixel_level arr mn mx i j v) in Hout by assumption.
  rewrite (pixel_level arr mn mx i' j' v') in Hout' by assumption.
  injection Hout as <-. injection Hout' as <-.
  apply stretch_floor_mono; assumption.
Qed.

Lemma apply_level_adjustment_monotone_witness : 34 <= 85.
Proof.
  apply (apply_level_adjustment_monotone
           [[0; 50; 200]; [70; 100; 255]] 50 200 1 0 1 1 70 100 34 85);
    try (unfold uint8; lia); try reflexivity.
  unfold uint8_grid, uint8; repeat constructor; lia.
Defined.


(** ** Thresholding *)


Lemma grid_sum_bounds {A : Type} (f : A -> Z) (g : list (list A))
    (h w : nat) :
  (forall v, 0 <= f v <= 1) ->
  length g = h /\ Forall (fun row => length row = w) g ->
  0 <= grid_sum f g <= Z.of_nat h * Z.of_nat w.
Proof.
  intros Hf Hshape. rewrite <- (grid_sum_one g h w Hshape).
  clear Hshape. unfold grid_sum.
  induction g as [|row g IH]; [simpl; lia|].
  simpl map. rewrite !sum_cons.
  assert (Hrow : 0 <= sum (map f row) <= sum (map (fun _ : A => 1) row)).
  { clear IH. induction row as [|v row IHrow]; [simpl; lia|].
    simpl map. rewrite !sum_cons. specialize (Hf v). lia. }
  lia.
Qed.

(** X9: for every grid of shape [h] by [w] and every cutoff, the
    thresholded grid has the same shape, every sample of it is 0 or 255, and
    its white count lies between 0 and [h * w]. *)
Theorem apply_threshold_binary (arr : grid) (h w : nat) (t : Z) :
  has_shape arr h w ->
  has_shape (apply_threshold arr t) h w
  /\ (forall i j v, pixel (apply_threshold arr t) i j = Some v ->
        v = 0 \/ v = 255)
  /\ 0 <= count_white (apply_threshold arr t) <= Z.of_nat h * Z.of_nat w.
Proof.
  intros Hshape. split; [|split].
  - apply map_grid_shape, Hshape.
  - intros i j v. unfold apply_threshold. rewrite pixel_map_grid.
    destruct (pixel arr i j) as [u|]; [|discriminate].
    simpl. intros [= <-]. destruct (u <=? t); auto.
  - unfold count_white, eq_scalar, apply_threshold.
    rewrite map_grid_map_grid, count_true_map_grid.
    apply grid_sum_bounds; [|exact Hshape].
    intros v. destruct ((if v <=? t then 0 else 255) =? 255); simpl; lia.
Qed.

Lemma apply_threshold_binary_witness :
  has_shape (apply_threshold [[200; 50; 130]; [0; 255; 128]] 128) 2 3
  /\ (forall i j v,
        pixel (apply_threshold [[200; 50; 130]; [0; 255; 128]] 128) i j
        = Some v -> v = 0 \/ v = 255)
  /\ 0 <= count_white (apply_threshold [[200; 50; 130]; [0; 255; 128]] 128)
       <= Z.of_nat 2 * Z.of_nat 3.
Proof.
  apply apply_threshold_binary. split; [reflexivity | repeat constructor].
Defined.


Lemma diff_count_ordered (arr : grid) (t1 t2 : Z) :
  t1 <= t2 ->
  count_true (mask_diff (apply_threshold arr t1) (apply_threshold arr t2))
  = count_white (apply_threshold arr t1)
    - count_white (apply_threshold arr t2).
Proof.
  intros Hle. unfold count_white, mask_diff. rewrite joint_mask.
  unfold eq_scalar, apply_threshold.
  rewrite !map_grid_map_grid, !count_true_map_grid.
  apply Z.add_move_r. rewrite grid_sum_plus. apply grid_sum_ext. intros v.
  destruct (v <=? t1) eqn:H1; destruct (v <=? t2) eqn:H2; try reflexivity.
  apply Z.leb_le in H1. apply Z.leb_gt in H2. lia.
Qed.

Lemma diff_count_reversed (arr : grid) (t1 t2 : Z) :
  t2 <= t1 ->
  count_true (mask_diff (apply_threshold arr t1) (apply_threshold arr t2))
  = 0.
Proof.
  intros Hle. unfold mask_diff. rewrite joint_mask.
  rewrite count_true_map_grid.
  rewrite (grid_sum_ext _ (fun _ => 0)); [apply grid_sum_zero|]. intros v.
  destruct (v <=? t1) eqn:H1; destruct (v <=? t2) eqn:H2; try reflexivity.
  apply Z.leb_gt in H1. apply Z.leb_le in H2. lia.
Qed.

Lemma diff_count_nonneg (arr : grid) (t1 t2 : Z) :
  0 <= count_true (mask_diff (apply_threshold arr t1)
                             (apply_threshold arr t2)).
Proof.
  unfold mask_diff. rewrite joint_mask, count_true_map_grid, grid_sum_concat.
  induction (concat arr) as [|v l IH]; [simpl; lia|].
  simpl map. rewrite sum_cons.
  assert (0 <= indicator
            (((if v <=? t1 then 0 else 255) =? 255)
             && ((if v <=? t2 then 0 else 255) =? 0)))
    by (destruct (_ && _); simpl; lia).
  lia.
Qed.

(** X10: the difference count that [on_threshold] shows is the first white
    count minus the second when [t1 <= t2] (the value [on_add_table] then
    records as the difference); when [t2 <= t1] it is 0 and the first white
    count does not exceed the second. *)
Theorem on_threshold_diff_count (t1 t2 : Z) (adjusted : grid)
    (histogram : list Z) :
  histogram <> [] ->
  exists view,
    on_threshold t1 t2 (Some adjusted) (Some histogram) = Some view
    /\ (t1 <= t2 ->
          diff_count view = white_count_1 view - white_count_2 view)
    /\ (t2 <= t1 ->
          diff_count view = 0 /\ white_count_1 view <= white_count_2 view).
Proof.
  intros Hne. unfold on_threshold.
  destruct histogram as [|b bins]; [contradiction|].
  eexists. split; [reflexivity|]. simpl. split; intros Hle.
  - apply diff_count_ordered, Hle.
  - split; [apply diff_count_reversed, Hle|].
    pose proof (diff_count_ordered adjusted t2 t1 Hle).
    pose proof (diff_count_nonneg adjusted t2 t1). lia.
Qed.

Lemma on_threshold_diff_count_witness :
  exists view,
    on_threshold 100 129 (Some [[200; 50; 130]; [0; 255; 128]]) (Some [6])
    = Some view
    /\ (100 <= 129 ->
          diff_count view = white_count_1 view - white_count_2 view)
    /\ (129 <= 100 ->
          diff_count view = 0 /\ white_count_1 view <= white_count_2 view).
Proof.
  apply on_threshold_diff_count. discriminate.
Defined.


(** ** Median filter: the values it returns *)

Lemma reflect_index_range (p n : Z) :
  0 < n -> 0 <= reflect_index p n < n.
Proof.
  intros Hn. unfold reflect_index.
  pose proof (Z.mod_pos_bound p (2 * n)).
  destruct (p mod (2 * n) <? n) eqn:Hq;
    [apply Z.ltb_lt in Hq | apply Z.ltb_ge in Hq]; lia.
Qed.

Lemma reflect_index_inside (p n : Z) :
  0 <= p < n -> reflect_index p n = p.
Proof.
  intros Hp. unfold reflect_index.
  rewrite Z.mod_small by lia.
  destruct (p <? n) eqn:Hq; [reflexivity | apply Z.ltb_ge in Hq; lia].
Qed.

Lemma insert_sorted_In (x y : Z) (l : list Z) :
  In y (insert_sorted x l) <-> y = x \/ In y l.
Proof.
  induction l as [|z l IH]; simpl.
  - intuition.
  - destruct (x <=? z); simpl; rewrite ?IH; intuition.
Qed.

Lemma sort_In (y : Z) (l : list Z) : In y (sort l) <-> In y l.
Proof.
  unfold sort. induction l as [|x l IH]; simpl; [reflexivity|].
  rewrite insert_sorted_In, IH. intuition.
Qed.

Lemma insert_sorted_length (x : Z) (l : list Z) :
  length (insert_sorted x l) = S (length l).
Proof.
  induction l as [|z l IH]; simpl; [reflexivity|].
  destruct (x <=? z); simpl; [reflexivity | rewrite IH; reflexivity].
Qed.

Lemma sort_length (l : list Z) : length (sort l) = length l.
Proof.
  unfold sort. induction l as [|x l IH]; simpl; [reflexivity|].
  rewrite insert_sorted_length, IH. reflexivity.
Qed.

Lemma rank_select_In (l : list Z) (rank : nat) :
  (rank < length l)%nat -> In (rank_select l rank) l.
Proof.
  intros Hr. unfold rank_select. apply sort_In, nth_In.
  rewrite sort_length. exact Hr.
Qed.

Lemma flat_map_length_const {A B : Type} (f : A -> list B) (l : list A)
    (m : nat) :
  (forall x, length (f x) = m) -> length (flat_map f l) = (length l * m)%nat.
Proof.
  intros Hf. induction l as [|x l IH]; [reflexivity|].
  simpl. rewrite length_app, Hf, IH. reflexivity.
Qed.

Lemma window_length (arr : grid) (h w k i j : Z) :
  length (window arr h w k i j) = (Z.to_nat k * Z.to_nat k)%nat.
Proof.
  unfold window. rewrite (flat_map_length_const _ _ (Z.to_nat k)).
  - rewrite zrange_length. reflexivity.
  - intros di. rewrite length_map, zrange_length. reflexivity.
Qed.

Lemma median_rank_inside (k : Z) :
  1 <= k -> (Z.to_nat (k * k / 2) < Z.to_nat k * Z.to_nat k)%nat.
Proof.
  intros Hk. rewrite <- Z2Nat.inj_mul by lia.
  apply Z2Nat.inj_lt; [apply Z.div_pos; nia | nia |].
  apply Z.div_lt_upper_bound; nia.
Qed.

Lemma row_length (arr : grid) (h w i : nat) :
  has_shape arr h w -> (i < h)%nat -> length (nth i arr []) = w.
Proof.
  intros [Hh Hw] Hi. rewrite Forall_forall in Hw. apply Hw, nth_In. lia.
Qed.

Lemma sample_reflect_In (arr : grid) (h w : nat) (i j : Z) :
  has_shape arr h w -> (1 <= h)%nat -> (1 <= w)%nat ->
  In (sample_reflect arr (Z.of_nat h) (Z.of_nat w) i j) (concat arr).
Proof.
  intros Hshape Hh Hw. unfold sample_reflect.
  pose proof (reflect_index_range i (Z.of_nat h)) as Hi.
  pose proof (reflect_index_range j (Z.of_nat w)) as Hj.
  set (r := Z.to_nat (reflect_index i (Z.of_nat h))).
  set (c := Z.to_nat (reflect_index j (Z.of_nat w))).
  assert (Hr : (r < h)%nat) by (subst r; lia).
  assert (Hc : (c < w)%nat) by (subst c; lia).
  apply in_concat. exists (nth r arr []). split.
  - apply nth_In. destruct Hshape as [Hlen _]. lia.
  - apply nth_In. rewrite (row_length arr h w r Hshape Hr). exact Hc.
Qed.

Lemma window_In (arr : grid) (h w : nat) (k i j x : Z) :
  has_shape arr h w -> (1 <= h)%nat -> (1 <= w)%nat ->
  In x (window arr (Z.of_nat h) (Z.of_nat w) k i j) -> In x (concat arr).
Proof.
  intros Hshape Hh Hw. unfold window. rewrite in_flat_map.
  intros [di [_ Hx]].
  apply in_map_iff in Hx. destruct Hx as [dj [<- _]].
  apply sample_reflect_In; assumption.
Qed.

(** The filter written with the common width of the rows. *)
Lemma median_filter_rows (arr : grid) (h w : nat) (k : Z) :
  has_shape arr h w -> 1 <= k ->
  median_filter arr k
  = Some (map (fun i =>
                 map (fun j =>
                        rank_select
                          (window arr (Z.of_nat h) (Z.of_nat w) k i j)
                          (Z.to_nat (k * k / 2)))
                     (zrange 0 w))
              (zrange 0 h)).
Proof.
  intros Hshape Hk. unfold median_filter.
  destruct (k <? 1) eqn:Hlt; [apply Z.ltb_lt in Hlt; lia|].
  destruct Hshape as [Hlen Hrows]. rewrite Hlen. f_equal.
  apply map_ext_in. intros i Hi. apply zrange_bounds in Hi.
  rewrite (row_length arr h w (Z.to_nat i) (conj Hlen Hrows)) by lia.
  rewrite Nat2Z.id. reflexivity.
Qed.

Lemma median_value_In (arr : grid) (h w : nat) (k i j : Z) :
  has_shape arr h w -> (1 <= h)%nat -> (1 <= w)%nat -> 1 <= k ->
  In (rank_select (window arr (Z.of_nat h) (Z.of_nat w) k i j)
                  (Z.to_nat (k * k / 2)))
     (concat arr).
Proof.
  intros Hshape Hh Hw Hk. apply (window_In arr h w k i j); try assumption.
  apply rank_select_In.
  rewrite window_length. apply median_rank_inside, Hk.
Qed.

Lemma uint8_mod (v : Z) : uint8 v -> v mod 256 = v.
Proof. unfold uint8. intros Hv. apply Z.mod_small. lia. Qed.

Lemma pixel_In (g : grid) (i j : nat) (v : Z) :
  pixel g i j = Some v -> exists row, In row g /\ In v row.
Proof.
  unfold pixel. destruct (nth_error g i) as [row|] eqn:Hrow; [|discriminate].
  intros Hv. exists row. split; eapply nth_error_In; eassumption.
Qed.

(** X12: for an eight-bit grid of at least one row and one column and every
    kernel size [k >= 1], [apply_median] returns a grid whose every sample is
    a sample of the input; in particular the result is an eight-bit grid. *)
Theorem apply_median_keeps_values (arr : grid) (h w : nat) (k : Z) :
  uint8_grid arr -> has_shape arr h w -> (1 <= h)%nat -> (1 <= w)%nat ->
  1 <= k ->
  exists out,
    apply_median arr k = Some out
    /\ uint8_grid out
    /\ forall i j v, pixel out i j = Some v -> In v (concat arr).
Proof.
  intros Harr Hshape Hh Hw Hk. unfold apply_median.
  rewrite (median_filter_rows arr h w k Hshape Hk). cbn [option_map].
  eexists. split; [reflexivity|].
  pose proof (uint8_flat arr Harr) as Hflat. rewrite Forall_forall in Hflat.
  assert (Hall : Forall (Forall (fun v => In v (concat arr)))
            (map_grid (fun v => v mod 256)
               (map (fun i =>
                  map (fun j =>
                     rank_select
                       (window arr (Z.of_nat h) (Z.of_nat w) k i j)
                       (Z.to_nat (k * k / 2)))
                    (zrange 0 w))
                  (zrange 0 h)))).
  { unfold map_grid. rewrite map_map. apply Forall_map, Forall_forall.
    intros i _. rewrite map_map. apply Forall_map, Forall_forall.
    intros j _.
    pose proof (median_value_In arr h w k i j Hshape Hh Hw Hk) as Hin.
    rewrite uint8_mod by (apply Hflat, Hin). exact Hin. }
  split.
  - unfold uint8_grid. eapply Forall_impl; [|exact Hall].
    intros row Hrow. eapply Forall_impl; [|exact Hrow].
    intros v Hv. apply Hflat, Hv.
  - intros i j v Hpix. apply pixel_In in Hpix.
    destruct Hpix as [row [Hrow Hv]].
    rewrite Forall_forall in Hall. specialize (Hall row Hrow).
    rewrite Forall_forall in Hall. exact (Hall v Hv).
Qed.

Lemma apply_median_keeps_values_witness :
  exists out,
    apply_median [[1; 2; 3]; [4; 5; 6]; [7; 8; 9]] 3 = Some out
    /\ uint8_grid out
    /\ forall i j v,
         pixel out i j = Some v ->
         In v (concat [[1; 2; 3]; [4; 5; 6]; [7; 8; 9]]).
Proof.
  apply (apply_median_keeps_values [[1; 2; 3]; [4; 5; 6]; [7; 8; 9]] 3 3 3);
    try lia.
  - unfold uint8_grid, uint8; repeat constructor; lia.
  - split; [reflexivity | repeat constructor].
Defined.


Lemma map_const_zrange {B : Type} (c : B) (lo : Z) (n : nat) :
  map (fun _ => c) (zrange lo n) = repeat c n.
Proof.
  revert lo. induction n as [|n IH]; intros lo; [reflexivity|].
  simpl. rewrite IH. reflexivity.
Qed.

Lemma repeat_shape (c : Z) (h w : nat) :
  has_shape (repeat (repeat c w) h) h w.
Proof.
  split; [apply repeat_length|].
  apply Forall_forall. intros row Hrow. apply repeat_spec in Hrow.
  subst row. apply repeat_length.
Qed.

Lemma concat_repeat_In (c v : Z) (h w : nat) :
  In v (concat (repeat (repeat c w) h)) -> v = c.
Proof.
  intros Hin. apply in_concat in Hin. destruct Hin as [row [Hrow Hv]].
  apply repeat_spec in Hrow. subst row. apply repeat_spec in Hv. exact Hv.
Qed.

(** X13: a constant eight-bit image is returned unchanged by [apply_median]
    for every kernel size [k >= 1]. *)
Theorem apply_median_constant_image (c : Z) (h w : nat) (k : Z) :
  uint8 c -> (1 <= h)%nat -> (1 <= w)%nat -> 1 <= k ->
  apply_median (repeat (repeat c w) h) k = Some (repeat (repeat c w) h).
Proof.
  intros Hc Hh Hw Hk. unfold apply_median.
  rewrite (median_filter_rows _ h w k (repeat_shape c h w) Hk). simpl.
  f_equal. unfold map_grid. rewrite map_map.
  transitivity (map (fun _ : Z => map (fun _ : Z => c) (zrange 0 w))
                    (zrange 0 h)).
  - apply map_ext. intros i. rewrite map_map.
    apply map_ext. intros j.
    pose proof (median_value_In _ h w k i j (repeat_shape c h w) Hh Hw Hk)
      as Hin.
    apply concat_repeat_In in Hin. rewrite Hin.
    apply uint8_mod, Hc.
  - rewrite (map_const_zrange c 0 w). apply map_const_zrange.
Qed.

Lemma apply_median_constant_image_witness :
  apply_median (repeat (repeat 128 4) 4) 5 = Some (repeat (repeat 128 4) 4).
Proof.
  apply apply_median_constant_image; try lia. unfold uint8; lia.
Defined.


Lemma nth_zrange_rebuild {A : Type} (l : list A) (d : A) (lo : Z) :
  map (fun j => nth (Z.to_nat (j - lo)) l d) (zrange lo (length l)) = l.
Proof.
  revert lo. induction l as [|x l IH]; intros lo; [reflexivity|].
  simpl length. cbn [zrange map]. rewrite Z.sub_diag. simpl nth at 1.
  f_equal. rewrite <- (IH (lo + 1)) at 2.
  apply map_ext_in. intros j Hj. apply zrange_bounds in Hj.
  replace (Z.to_nat (j - lo)) with (S (Z.to_nat (j - (lo + 1)))) by lia.
  reflexivity.
Qed.

(** X14: with kernel size 1 [apply_median] returns the eight-bit grid
    unchanged. *)
Theorem apply_median_size_one (arr : grid) (h w : nat) :
  uint8_grid arr -> has_shape arr h w -> (1 <= h)%nat -> (1 <= w)%nat ->
  apply_median arr 1 = Some arr.
Proof.
  intros Harr Hshape Hh Hw. unfold apply_median.
  rewrite (median_filter_rows arr h w 1 Hshape) by lia. cbn [option_map].
  apply (f_equal (@Some grid)). unfold map_grid. rewrite map_map.
  destruct Hshape as [Hlen Hrows]. rewrite Forall_forall in Hrows.
  unfold uint8_grid in Harr. rewrite Forall_forall in Harr.
  transitivity (map (fun i => nth (Z.to_nat (i - 0)) arr [])
                    (zrange 0 (length arr)));
    [|apply nth_zrange_rebuild].
  rewrite Hlen. apply map_ext_in. intros i Hi. apply zrange_bounds in Hi.
  rewrite Z.sub_0_r, map_map.
  assert (Hrow : In (nth (Z.to_nat i) arr []) arr) by (apply nth_In; lia).
  transitivity (map (fun j => nth (Z.to_nat (j - 0)) (nth (Z.to_nat i) arr []) 0)
                    (zrange 0 (length (nth (Z.to_nat i) arr []))));
    [|apply nth_zrange_rebuild].
  rewrite (Hrows _ Hrow).
  apply map_ext_in. intros j Hj. apply zrange_bounds in Hj.
  change (window arr (Z.of_nat h) (Z.of_nat w) 1 i j)
    with [sample_reflect arr (Z.of_nat h) (Z.of_nat w) (i + 0) (j + 0)].
  change (Z.to_nat (1 * 1 / 2)) with 0%nat.
  unfold rank_select, sort. simpl fold_right. simpl nth.
  unfold sample_reflect. rewrite !Z.add_0_r, !Z.sub_0_r.
  rewrite !reflect_index_inside by lia.
  apply uint8_mod.
  specialize (Harr _ Hrow).
  rewrite Forall_forall in Harr. apply Harr, nth_In.
  rewrite (Hrows _ Hrow). lia.
Qed.

Lemma apply_median_size_one_witness :
  apply_median [[9; 7; 5]; [3; 1; 0]] 1 = Some [[9; 7; 5]; [3; 1; 0]].
Proof.
  apply (apply_median_size_one [[9; 7; 5]; [3; 1; 0]] 2 3); try lia.
  - unfold uint8_grid, uint8; repeat constructor; lia.
  - split; [reflexivity | repeat constructor].
Defined.


(** ** The crop *)

Lemma py_round_compat (a b : Q) : (a == b)%Q -> py_round a = py_round b.
Proof.
  intros Hab. unfold py_round. rewrite (Qfloor_comp a b Hab).
  assert (Harg : ((a - inject_Z (Qfloor b)) * 2 == (b - inject_Z (Qfloor b)) * 2)%Q)
    by (rewrite Hab; reflexivity).
  rewrite (Qcompare_comp _ _ Harg 1%Q 1%Q (Qeq_refl 1)). reflexivity.
Qed.

Lemma crop_box_swap (xa ya xb yb : Q) (h w : Z) :
  crop_box (mk_crop xa ya xb yb) h w = crop_box (mk_crop xb yb xa ya) h w.
Proof.
  unfold crop_box. simpl.
  rewrite (py_round_compat _ _ (Q.min_comm xa xb)).
  rewrite (py_round_compat _ _ (Q.max_comm xa xb)).
  rewrite (py_round_compat _ _ (Q.min_comm ya yb)).
  rewrite (py_round_compat _ _ (Q.max_comm ya yb)).
  reflexivity.
Qed.

(** X15: [on_apply] gives the same answer whichever corner of the rectangle
    the drag started from: exchanging the two corners, or only their
    abscissas, changes nothing. *)
Theorem on_apply_corner_order (n_clicks : Z) (original : option grid)
    (xa ya xb yb : Q) (kernel_size : Z) :
  on_apply n_clicks original (Some (mk_crop xa ya xb yb)) kernel_size
  = on_apply n_clicks original (Some (mk_crop xb yb xa ya)) kernel_size
  /\ on_apply n_clicks original (Some (mk_crop xa ya xb yb)) kernel_size
     = on_apply n_clicks original (Some (mk_crop xb ya xa yb)) kernel_size.
Proof.
  destruct original as [original|]; [|split; reflexivity].
  unfold on_apply. split.
  - rewrite (crop_box_swap xa ya xb yb _ _). reflexivity.
  - assert (Hbox : forall h w,
              crop_box (mk_crop xa ya xb yb) h w
              = crop_box (mk_crop xb ya xa yb) h w).
    { intros h w. unfold crop_box. simpl.
      rewrite (py_round_compat _ _ (Q.min_comm xa xb)).
      rewrite (py_round_compat _ _ (Q.max_comm xa xb)). reflexivity. }
    rewrite Hbox. reflexivity.
Qed.


Lemma slice_length {A : Type} (l : list A) (lo hi : Z) :
  0 <= lo <= hi -> hi <= Z.of_nat (length l) ->
  length (slice l lo hi) = Z.to_nat (hi - lo).
Proof.
  intros Hlo Hhi. unfold slice.
  rewrite length_firstn, length_skipn. lia.
Qed.

Lemma slice_nth_error {A : Type} (l : list A) (lo hi : Z) (i : nat) :
  0 <= lo -> (i < Z.to_nat (hi - lo))%nat ->
  nth_error (slice l lo hi) i = nth_error l (Z.to_nat lo + i).
Proof.
  intros Hlo Hi. unfold slice. rewrite nth_error_firstn.
  destruct (Nat.ltb_spec i (Z.to_nat (hi - lo))) as [_|H]; [|lia].
  apply nth_error_skipn.
Qed.

Lemma slice_In {A : Type} (l : list A) (lo hi : Z) (x : A) :
  In x (slice l lo hi) -> In x l.
Proof.
  unfold slice. intros Hx.
  apply In_nth_error in Hx. destruct Hx as [i Hi].
  rewrite nth_error_firstn in Hi.
  destruct (i <? Z.to_nat (hi - lo))%nat; [|discriminate].
  rewrite nth_error_skipn in Hi. eapply nth_error_In, Hi.
Qed.

Lemma crop_grid_uint8 (original : grid) (x0 x1 y0 y1 : Z) :
  uint8_grid original -> uint8_grid (crop_grid original x0 x1 y0 y1).
Proof.
  unfold uint8_grid, crop_grid. intros Horig.
  rewrite Forall_forall in Horig.
  apply Forall_map, Forall_forall. intros row Hrow.
  apply slice_In in Hrow. specialize (Horig row Hrow).
  rewrite Forall_forall in Horig.
  apply Forall_forall. intros v Hv. apply slice_In in Hv. apply Horig, Hv.
Qed.

Lemma crop_grid_shape (original : grid) (h w : nat) (x0 x1 y0 y1 : Z) :
  has_shape original h w ->
  0 <= x0 <= x1 -> x1 <= Z.of_nat w -> 0 <= y0 <= y1 -> y1 <= Z.of_nat h ->
  has_shape (crop_grid original x0 x1 y0 y1)
            (Z.to_nat (y1 - y0)) (Z.to_nat (x1 - x0)).
Proof.
  intros [Hlen Hrows] Hx0 Hx1 Hy0 Hy1. unfold crop_grid. split.
  - rewrite length_map. apply slice_length; [exact Hy0 | lia].
  - apply Forall_map, Forall_forall. intros row Hrow.
    apply slice_In in Hrow. rewrite Forall_forall in Hrows.
    apply slice_length; [exact Hx0|]. rewrite (Hrows row Hrow). exact Hx1.
Qed.

(** X16: for bounds inside an image of shape [h] by [w], the crop
    [original[y0:y1, x0:x1]] has [y1 - y0] rows and [x1 - x0] columns, and
    its sample at [(i, j)] is the sample of the image at
    [(y0 + i, x0 + j)]. *)
Theorem crop_grid_pixels (original : grid) (h w : nat) (x0 x1 y0 y1 : Z) :
  has_shape original h w ->
  0 <= x0 <= x1 -> x1 <= Z.of_nat w -> 0 <= y0 <= y1 -> y1 <= Z.of_nat h ->
  has_shape (crop_grid original x0 x1 y0 y1)
            (Z.to_nat (y1 - y0)) (Z.to_nat (x1 - x0))
  /\ forall i j : nat,
       (i < Z.to_nat (y1 - y0))%nat -> (j < Z.to_nat (x1 - x0))%nat ->
       pixel (crop_grid original x0 x1 y0 y1) i j
       = pixel original (Z.to_nat y0 + i) (Z.to_nat x0 + j).
Proof.
  intros Hshape Hx0 Hx1 Hy0 Hy1.
  split; [apply (crop_grid_shape original h w); assumption|].
  intros i j Hi Hj. unfold pixel, crop_grid.
  rewrite nth_error_map, slice_nth_error by lia.
  destruct (nth_error original (Z.to_nat y0 + i)) as [row|]; [|reflexivity].
  simpl. apply slice_nth_error; lia.
Qed.

Lemma crop_grid_pixels_witness :
  has_shape
    (crop_grid [[10; 20; 30; 40]; [50; 60; 70; 80]; [90; 100; 110; 120]]
               1 3 0 2)
    (Z.to_nat (2 - 0)) (Z.to_nat (3 - 1))
  /\ forall i j : nat,
       (i < Z.to_nat (2 - 0))%nat -> (j < Z.to_nat (3 - 1))%nat ->
       pixel
         (crop_grid [[10; 20; 30; 40]; [50; 60; 70; 80]; [90; 100; 110; 120]]
                    1 3 0 2) i j
       = pixel [[10; 20; 30; 40]; [50; 60; 70; 80]; [90; 100; 110; 120]]
               (Z.to_nat 0 + i) (Z.to_nat 1 + j).
Proof.
  apply (crop_grid_pixels
           [[10; 20; 30; 40]; [50; 60; 70; 80]; [90; 100; 110; 120]] 3 4);
    try lia.
  split; [reflexivity | repeat constructor].
Defined.


(** ** The crop callback on a proper rectangle *)

Lemma apply_median_result (arr : grid) (h w : nat) (k : Z) :
  has_shape arr h w -> 1 <= k ->
  exists filtered,
    apply_median arr k = Some filtered
    /\ uint8_grid filtered /\ has_shape filtered h w.
Proof.
  intros Hshape Hk. unfold apply_median.
  rewrite (median_filter_rows arr h w k Hshape Hk). cbn [option_map].
  eexists. split; [reflexivity|]. split.
  - apply map_grid_uint8. intros v. unfold uint8.
    pose proof (Z.mod_pos_bound v 256). lia.
  - apply map_grid_shape. split.
    + rewrite length_map, zrange_length. reflexivity.
    + apply Forall_map, Forall_forall. intros i _.
      rewrite length_map, zrange_length. reflexivity.
Qed.

Lemma analyse_histogram_of_grid (arr : grid) (h w : nat) :
  uint8_grid arr -> has_shape arr h w -> (1 <= h)%nat -> (1 <= w)%nat ->
  exists r, analyse_histogram (compute_histogram arr) = Some r
            /\ uint8 (min_val r) /\ uint8 (max_val r).
Proof.
  intros Harr Hshape Hh Hw.
  destruct (analyse_histogram_scans (compute_histogram arr)) as
    [i [j [Hres [Hi [Hj _]]]]].
  - apply compute_histogram_length, Harr.
  - apply compute_histogram_nonneg.
  - rewrite (compute_histogram_sum arr h w Harr Hshape). nia.
  - eexists. split; [exact Hres|]. unfold uint8. simpl. lia.
Qed.

(** The run of [on_apply] on a proper rectangle: the filtered image, the
    analysis, and the outputs built from them. *)
Lemma on_apply_run (n_clicks : Z) (original : grid) (h w : nat)
    (crop : crop_coords) (kernel_size x0 x1 y0 y1 : Z) :
  uint8_grid original -> has_shape original h w ->
  crop_box crop (Z.of_nat h) (Z.of_nat w) = (x0, x1, y0, y1) ->
  2 <= x1 - x0 -> 2 <= y1 - y0 -> 1 <= kernel_size ->
  exists filtered r out,
    uint8_grid filtered
    /\ has_shape filtered (Z.to_nat (y1 - y0)) (Z.to_nat (x1 - x0))
    /\ on_apply n_clicks (Some original) (Some crop) kernel_size
       = ([MedianFilter; HistogramCount; HistogramAnalysis]
            ++ (if skewed r then [LevelAdjustment] else [])
            ++ [HistogramCount],
          Updated out)
    /\ store_adjusted out
       = (if skewed r
          then apply_level_adjustment filtered (min_val r) (max_val r)
          else filtered)
    /\ store_histogram out = compute_histogram (store_adjusted out)
    /\ cropped_img out = crop_grid original x0 x1 y0 y1
    /\ adjustment_warning out = skewed r
    /\ t1_slider out = 128 /\ t2_slider out = 200.
Proof.
  intros Horig Hshape Hbox Hwidth Hheight Hk.
  assert (Hbounds : 0 <= x0 /\ x1 <= Z.of_nat w /\ 0 <= y0 /\ y1 <= Z.of_nat h).
  { unfold crop_box in Hbox. injection Hbox as <- <- <- <-. lia. }
  destruct Hbounds as [Hx0 [Hx1 [Hy0 Hy1]]].
  pose proof Hshape as [Hlen Hrows].
  destruct original as [|row0 rest]; [simpl in Hlen; lia|].
  assert (Hrow0 : length row0 = w) by (inversion Hrows; assumption).
  unfold on_apply. cbn [hd]. rewrite Hlen, Hrow0, Hbox.
  destruct ((x1 - x0 <? 2) || (y1 - y0 <? 2)) eqn:Htest.
  { apply orb_true_iff in Htest. destruct Htest as [H|H];
      apply Z.ltb_lt in H; lia. }
  set (cropped := crop_grid (row0 :: rest) x0 x1 y0 y1).
  assert (Hc8 : uint8_grid cropped) by (apply crop_grid_uint8, Horig).
  assert (Hcshape : has_shape cropped (Z.to_nat (y1 - y0))
                              (Z.to_nat (x1 - x0)))
    by (apply (crop_grid_shape _ h w); try assumption; lia).
  destruct (apply_median_result cropped _ _ kernel_size Hcshape Hk)
    as [filtered [Hmed [Hf8 Hfshape]]].
  destruct (analyse_histogram_of_grid filtered _ _ Hf8 Hfshape)
    as [r [Hr _]]; try lia.
  rewrite Hmed. cbn [bind call]. rewrite Hr.
  exists filtered, r.
  destruct (skewed r) eqn:Hskew; cbn [bind call ret finish app];
    eexists; (split; [exact Hf8|]); (split; [exact Hfshape|]);
    repeat split; reflexivity.
Qed.




(** ** The texts of the counts *)

Lemma ungroup (digits : list ascii) :
  filter not_comma digits = digits ->
  filter not_comma
    (list_ascii_of_string
       (string_of_list_ascii (rev (group_rev (rev digits) 0))))
  = digits.
Proof.
  intros Hd. rewrite list_ascii_of_string_of_list_ascii.
  rewrite filter_rev, filter_group_rev, <- filter_rev, rev_involutive.
  exact Hd.
Qed.

Lemma remove_commas_format_commas_neg (n : Z) :
  n < 0 -> remove_commas (format_commas n) = py_str n.
Proof.
  intros Hn. unfold remove_commas, format_commas.
  destruct (n <? 0) eqn:Hneg; [|apply Z.ltb_ge in Hneg; lia].
  cbn [list_ascii_of_string filter not_comma].
  change (not_comma "-"%char) with true. cbv iota.
  rewrite ungroup by (apply py_str_no_comma; lia).
  cbn [string_of_list_ascii]. rewrite string_of_list_ascii_of_string.
  destruct n as [|p|p]; try lia. reflexivity.
Qed.

(** X18: the text that [on_threshold] shows for a count, the number with a
    comma between its groups of three digits, is read back by
    [int(str(cnt).replace(",", ""))] of [on_add_table] as the same number,
    for every integer. *)
Theorem count_text_reads_back (n : Z) :
  py_int (remove_commas (format_commas n)) = Some n.
Proof.
  destruct (Z.lt_ge_cases n 0) as [Hneg | Hpos].
  - rewrite (remove_commas_format_commas_neg n Hneg). apply py_int_py_str.
  - rewrite (remove_commas_format_commas n Hpos). apply py_int_py_str.
Qed.


(** ** The rectangle callback *)

Lemma before_char_digits (c : ascii) (d : Decimal.uint) (rest : string) :
  is_digit c = false ->
  before_char c (NilEmpty.string_of_uint d ++ rest)
  = (NilEmpty.string_of_uint d ++ before_char c rest)%string.
Proof.
  intros Hc.
  induction d; cbn [append NilEmpty.string_of_uint before_char];
    try reflexivity;
    match goal with
    | |- context [Ascii.eqb ?a c] => destruct (Ascii.eqb a c) eqn:Heq
    end;
    try (apply Ascii.eqb_eq in Heq; subst c; discriminate);
    rewrite IHd; reflexivity.
Qed.

Lemma before_char_py_str (c : ascii) (i : Z) (rest : string) :
  is_digit c = false -> 0 <= i ->
  before_char c (py_str i ++ rest)
  = (py_str i ++ before_char c rest)%string.
Proof.
  intros Hc Hi. unfold py_str. destruct i as [|p|p]; [| |lia].
  - change (NilZero.string_of_int (Z.to_int 0)) with "0"%string.
    cbn [append before_char].
    destruct (Ascii.eqb "0" c) eqn:Heq; [|reflexivity].
    apply Ascii.eqb_eq in Heq. subst c. discriminate.
  - simpl Z.to_int. unfold NilZero.string_of_int, NilZero.string_of_uint.
    pose proof (Unsigned.to_uint_nonnil p) as Hnn.
    destruct (Pos.to_uint p) eqn:Hp; try contradiction;
      rewrite <- Hp; apply before_char_digits, Hc.
Qed.

Lemma append_empty (s : string) : (s ++ "")%string = s.
Proof. induction s as [|a s IH]; simpl; [|rewrite IH]; reflexivity. Qed.

Lemma shape_index_key (i : Z) (p : string) :
  0 <= i -> shape_index (shape_key i p) = Some i.
Proof.
  intros Hi. unfold shape_index, shape_key.
  cbn [append before_char after_char Ascii.eqb Bool.eqb].
  rewrite (before_char_py_str "]"%char i _ eq_refl Hi).
  cbn [append before_char after_char Ascii.eqb Bool.eqb].
  rewrite (before_char_py_str "["%char i _ eq_refl Hi).
  cbn [before_char]. rewrite !append_empty. apply py_int_py_str.
Qed.

Lemma append_assoc (s1 s2 s3 : string) :
  ((s1 ++ s2) ++ s3)%string = (s1 ++ (s2 ++ s3))%string.
Proof. induction s1 as [|a s1 IH]; simpl; [|rewrite IH]; reflexivity. Qed.

Lemma shape_key_prefix (i : Z) (p : string) :
  (("shapes[" ++ py_str i ++ "]") ++ "." ++ p)%string = shape_key i p.
Proof.
  unfold shape_key. cbn [append]. rewrite append_assoc. reflexivity.
Qed.

Lemma prefix_shape_key (i : Z) (p : string) :
  starts_with "shapes[" (shape_key i p) = true.
Proof. reflexivity. Qed.

Lemma dict_get_In (key : string) (d : dict) (v : json) :
  dict_get key d = Some v -> In key (map fst d).
Proof.
  induction d as [|[k u] d IH]; simpl; [discriminate|].
  destruct (String.eqb k key) eqn:Heq.
  - apply String.eqb_eq in Heq. auto.
  - auto.
Qed.

Lemma shape_indices_bounded (keys : list string) (i : Z) :
  (forall k, In k keys -> exists j p, 0 <= j <= i /\ k = shape_key j p) ->
  exists indices,
    shape_indices keys = Some indices
    /\ Forall (fun j => j <= i) indices
    /\ forall j p, 0 <= j -> In (shape_key j p) keys -> In j indices.
Proof.
  induction keys as [|k keys IH]; intros Hkeys.
  - exists []. repeat split; [constructor | intros j p _ []].
  - destruct (Hkeys k (or_introl eq_refl)) as [j [p [Hj ->]]].
    destruct IH as [indices [Hind [Hle Hin]]].
    { intros k Hk. apply Hkeys. right. exact Hk. }
    exists (j :: indices). cbn [shape_indices].
    rewrite shape_index_key by lia. rewrite Hind.
    split; [reflexivity|]. split; [constructor; [lia | exact Hle]|].
    intros j' p' Hj' [Heq | Hk].
    + left. apply (f_equal shape_index) in Heq.
      rewrite !shape_index_key in Heq by lia. congruence.
    + right. eapply Hin; eassumption.
Qed.

Lemma max_index_bounded (indices : list Z) (i : Z) :
  Forall (fun j => j <= i) indices -> In i indices -> max_index indices = i.
Proof.
  intros Hle Hin. destruct indices as [|a rest]; [destruct Hin|].
  unfold max_index. inversion Hle as [|? ? Ha Hrest]; subst.
  assert (Hub : fold_right Z.max a rest <= i).
  { clear Hin Hle. induction Hrest; simpl; lia. }
  assert (Hlb : i <= fold_right Z.max a rest).
  { destruct Hin as [->|Hin].
    - clear. induction rest; simpl; lia.
    - clear Hle Hub Hrest Ha. induction rest as [|b rest IH];
        [destruct Hin|].
      simpl. destruct Hin as [->|Hin]; [lia|]. specialize (IH Hin). lia. }
  lia.
Qed.

(** X19: when the relayout data has no key [shapes] and its keys that start
    with [shapes[] are of the form [shapes[j].p] with [0 <= j <= i], and the
    four coordinates of the rectangle [i] are numbers, [on_relayout] stores
    the rectangle of the greatest index [i] and enables the apply button. *)
Theorem on_relayout_reshape (data : dict) (i : Z) (x0 y0 x1 y1 : Q) :
  0 <= i ->
  dict_get "shapes" data = None ->
  (forall k, In k (map fst data) -> starts_with "shapes[" k = true ->
     exists j p, 0 <= j <= i /\ k = shape_key j p) ->
  dict_get (shape_key i "x0") data = Some (JNumber x0) ->
  dict_get (shape_key i "y0") data = Some (JNumber y0) ->
  dict_get (shape_key i "x1") data = Some (JNumber x1) ->
  dict_get (shape_key i "y1") data = Some (JNumber y1) ->
  on_relayout (Some data)
  = Updated (Some (JNumber x0, JNumber y0, JNumber x1, JNumber y1), false)
  /\ crop_of_vals (JNumber x0, JNumber y0, JNumber x1, JNumber y1)
     = Some (mk_crop x0 y0 x1 y1).
Proof.
  intros Hi Hshapes Hkeys Hx0 Hy0 Hx1 Hy1. split; [|reflexivity].
  unfold on_relayout.
  destruct data as [|item data']; [discriminate|].
  set (data := item :: data') in *. rewrite Hshapes.
  set (shape_keys := filter (starts_with "shapes[") (map fst data)).
  assert (Hmem : In (shape_key i "x0") shape_keys).
  { apply filter_In. split; [eapply dict_get_In; eassumption|].
    apply prefix_shape_key. }
  destruct (shape_indices_bounded shape_keys i) as [indices [Hind [Hle Hin]]].
  { intros k Hk. apply filter_In in Hk. destruct Hk as [Hk Hp].
    apply Hkeys; assumption. }
  destruct shape_keys as [|k0 keys0] eqn:Hsk; [destruct Hmem|].
  rewrite <- Hsk in *. rewrite Hind.
  rewrite (max_index_bounded indices i Hle (Hin i "x0"%string Hi Hmem)).
  cbv zeta. rewrite !shape_key_prefix.
  rewrite Hx0, Hy0, Hx1, Hy1. reflexivity.
Qed.

Lemma on_relayout_reshape_witness :
  on_relayout
    (Some [("shapes[0].x0"%string, JNumber 1);
           ("shapes[1].x0"%string, JNumber 10);
           ("shapes[1].y0"%string, JNumber 20);
           ("shapes[1].x1"%string, JNumber 30);
           ("shapes[1].y1"%string, JNumber 40)])
  = Updated (Some (JNumber 10, JNumber 20, JNumber 30, JNumber 40), false)
  /\ crop_of_vals (JNumber 10, JNumber 20, JNumber 30, JNumber 40)
     = Some (mk_crop 10 20 30 40).
Proof.
  apply (on_relayout_reshape _ 1); try reflexivity; try lia.
  intros k Hin _. simpl in Hin.
  destruct Hin as [<- | [<- | [<- | [<- | [<- | []]]]]].
  - exists 0, "x0"%string. split; [lia | reflexivity].
  - exists 1, "x0"%string. split; [lia | reflexivity].
  - exists 1, "y0"%string. split; [lia | reflexivity].
  - exists 1, "x1"%string. split; [lia | reflexivity].
  - exists 1, "y1"%string. split; [lia | reflexivity].
Defined.


(** X20: when the relayout data lists the drawn rectangles under the key
    [shapes], [on_relayout] stores the last one and enables the apply button,
    and [on_apply] on the stored value crops by that rectangle. *)
Theorem on_relayout_then_apply (data : dict) (earlier : list crop_coords)
    (s : crop_coords) :
  dict_get "shapes" data = Some (JShapes (earlier ++ [s])) ->
  exists vals,
    on_relayout (Some data) = Updated (Some vals, false)
    /\ forall n_clicks original kernel_size,
         on_apply_stored n_clicks original (Some vals) kernel_size
         = on_apply n_clicks original (Some s) kernel_size.
Proof.
  intros Hget. exists (vals_of_shape s). split.
  - unfold on_relayout. destruct data as [|item data']; [discriminate|].
    rewrite Hget. cbn [truthy]. rewrite last_last.
    destruct earlier; reflexivity.
  - intros n_clicks original kernel_size. destruct s. reflexivity.
Qed.

Lemma on_relayout_then_apply_witness :
  exists vals,
    on_relayout
      (Some [("shapes"%string,
              JShapes ([mk_crop 1 2 3 4] ++ [mk_crop 5 6 7 8]))])
    = Updated (Some vals, false)
    /\ forall n_clicks original kernel_size,
         on_apply_stored n_clicks original (Some vals) kernel_size
         = on_apply n_clicks original (Some (mk_crop 5 6 7 8)) kernel_size.
Proof.
  apply (on_relayout_then_apply
           [("shapes"%string,
             JShapes ([mk_crop 1 2 3 4] ++ [mk_crop 5 6 7 8]))]
           [mk_crop 1 2 3 4] (mk_crop 5 6 7 8)).
  reflexivity.
Defined.


(** ** The CSV export *)

Example on_export_sample :
  on_export 1 (Some [mk_row "a.png" "1,000" "400" "600" "60.00"])
  = Updated (bom ++ csv_record csv_header
                 ++ "a.png," ++ String quote ("1,000" ++ String quote
                      (",400,600,60.00" ++ crlf)))%string.
Proof. vm_compute. reflexivity. Qed.

Lemma read_plain_field (f rest : string) :
  needs_quote f = false -> ends_field rest ->
  read_plain (f ++ rest) = (f, rest).
Proof.
  intros Hq [c [tail [-> Hc]]]. induction f as [|a f IH].
  - cbn [append read_plain]. destruct Hc as [-> | ->]; reflexivity.
  - cbn [needs_quote] in Hq. apply orb_false_iff in Hq.
    destruct Hq as [Ha Hf]. unfold special in Ha.
    repeat (apply orb_false_iff in Ha; destruct Ha as [Ha ?]).
    cbn [append read_plain]. rewrite Ha. 
    replace (Ascii.eqb a cr) with false by (symmetry; assumption).
    cbn [orb]. rewrite (IH Hf). reflexivity.
Qed.

Lemma read_quoted_field (f rest : string) :
  ends_field rest ->
  read_quoted (double_quotes f ++ String quote rest) = (f, rest).
Proof.
  intros [c [tail [-> Hc]]]. induction f as [|a f IH].
  - cbn [double_quotes append read_quoted].
    rewrite Ascii.eqb_refl.
    destruct Hc as [-> | ->]; reflexivity.
  - cbn [double_quotes]. destruct (Ascii.eqb a quote) eqn:Ha.
    + apply Ascii.eqb_eq in Ha. subst a.
      cbn [append read_quoted]. rewrite !Ascii.eqb_refl, IH. reflexivity.
    + cbn [append read_quoted]. rewrite Ha, IH. reflexivity.
Qed.

Lemma read_field_csv (f rest : string) :
  ends_field rest -> read_field (csv_field f ++ rest) = (f, rest).
Proof.
  intros Hrest. unfold csv_field. destruct (needs_quote f) eqn:Hq.
  - cbn [append read_field]. rewrite Ascii.eqb_refl.
    rewrite append_assoc. cbn [append]. apply read_quoted_field, Hrest.
  - destruct f as [|a f].
    + destruct Hrest as [c [tail [-> Hc]]]. cbn [append read_field].
      destruct Hc as [-> | ->]; reflexivity.
    + cbn [append read_field].
      assert (Ha : Ascii.eqb a quote = false).
      { cbn [needs_quote] in Hq. apply orb_false_iff in Hq.
        destruct Hq as [Ha _]. unfold special in Ha.
        repeat (apply orb_false_iff in Ha; destruct Ha as [Ha ?]).
        assumption. }
      rewrite Ha.
      exact (read_plain_field (String a f) rest Hq Hrest).
Qed.

Lemma csv_record_row (r : result_row) (tail : string) :
  (csv_record (row_fields r) ++ tail)%string = row_text r tail.
Proof.
  unfold csv_record, row_fields, row_text, crlf.
  cbn [map join_fields].
  destruct (csv_field (row_filename r)) as [|a f1];
    cbn [append]; rewrite !append_assoc; cbn [append];
    rewrite ?append_assoc; cbn [append];
    repeat (rewrite append_assoc; cbn [append]); reflexivity.
Qed.

Lemma ends_field_comma (s : string) : ends_field (String comma s).
Proof. exists comma, s. auto. Qed.

Lemma ends_field_cr (s : string) : ends_field (String cr s).
Proof. exists cr, s. auto. Qed.

Lemma row_text_inj (r r' : result_row) (tail tail' : string) :
  row_text r tail = row_text r' tail' -> r = r' /\ tail = tail'.
Proof.
  unfold row_text. intros H.
  apply (f_equal read_field) in H.
  rewrite !read_field_csv in H by apply ends_field_comma.
  injection H as H1 H. apply (f_equal read_field) in H.
  rewrite !read_field_csv in H by apply ends_field_comma.
  injection H as H2 H. apply (f_equal read_field) in H.
  rewrite !read_field_csv in H by apply ends_field_comma.
  injection H as H3 H. apply (f_equal read_field) in H.
  rewrite !read_field_csv in H by apply ends_field_comma.
  injection H as H4 H. apply (f_equal read_field) in H.
  rewrite !read_field_csv in H by apply ends_field_cr.
  injection H as H5 H.
  split; [|exact H].
  destruct r, r'. simpl in *. congruence.
Qed.

Lemma row_text_nonempty (r : result_row) (tail : string) :
  row_text r tail <> EmptyString.
Proof.
  unfold row_text. intros H. apply (f_equal read_field) in H.
  rewrite read_field_csv in H by apply ends_field_comma.
  cbn [read_field] in H. discriminate.
Qed.

Lemma rows_text_inj (rows rows' : list result_row) :
  concat_strings (map (fun r => csv_record (row_fields r)) rows)
  = concat_strings (map (fun r => csv_record (row_fields r)) rows') ->
  rows = rows'.
Proof.
  revert rows'. induction rows as [|r rows IH]; intros [|r' rows'];
    cbn [map concat_strings]; rewrite ?csv_record_row; intros H.
  - reflexivity.
  - symmetry in H. apply row_text_nonempty in H. contradiction.
  - apply row_text_nonempty in H. contradiction.
  - apply row_text_inj in H. destruct H as [-> H]. f_equal. apply IH, H.
Qed.

Lemma append_cancel (s a b : string) :
  (s ++ a)%string = (s ++ b)%string -> a = b.
Proof.
  induction s as [|c s IH]; cbn [append]; intros H; [exact H|].
  injection H as H. apply IH, H.
Qed.

Lemma updated_inj {O : Type} (a b : O) : Updated a = Updated b -> a = b.
Proof. intros [= H]. exact H. Qed.

(** X21: the exported file determines the table: two tables for which
    [on_export] returns the same content have the same rows, with the same
    five fields in each, whatever characters (commas, quotes, line ends) the
    file names hold. *)
Theorem on_export_lossless (n_clicks n_clicks' : Z)
    (rows rows' : list result_row) (content : string) :
  on_export n_clicks (Some rows) = Updated content ->
  on_export n_clicks' (Some rows') = Updated content ->
  rows = rows'.
Proof.
  unfold on_export. intros H H'.
  destruct rows as [|r rows]; [discriminate|].
  destruct rows' as [|r' rows']; [discriminate|].
  rewrite <- H' in H. apply updated_inj in H.
  apply append_cancel, append_cancel in H.
  apply rows_text_inj, H.
Qed.

Lemma on_export_lossless_witness :
  [mk_row "a,b.png" "1,000" "400" "600" "60.00"]
  = [mk_row "a,b.png" "1,000" "400" "600" "60.00"].
Proof.
  apply (on_export_lossless 1 2 _ _
           (bom ++ csv_record csv_header
                ++ String quote ("a,b.png" ++ String quote
                     ("," ++ String quote ("1,000" ++ String quote
                        (",400,600,60.00" ++ crlf)))))%string);
    vm_compute; reflexivity.
Defined.


(** ** The application *)

Lemma on_relayout_button (relayout_data : option dict)
    (crop : option crop_vals) (disabled : bool) :
  on_relayout relayout_data = Updated (crop, disabled) ->
  (disabled = true <-> crop = None).
Proof.
  unfold on_relayout.
  destruct relayout_data as [[|item data]|]; try discriminate.
  destruct (dict_get "shapes" (item :: data)) as [shapes|].
  - destruct (truthy shapes).
    + destruct shapes; try discriminate.
      intros [= <- <-]. split; discriminate.
    + intros [= <- <-]. split; reflexivity.
  - destruct (filter (starts_with "shapes[") (map fst (item :: data)));
      [discriminate|].
    destruct (shape_indices (s :: l)); [|discriminate].
    cbv zeta.
    match goal with
    | |- (if ?c then _ else _) = _ -> _ => destruct c
    end; [|discriminate].
    intros [= <- <-]. split; discriminate.
Qed.

Lemma count_white_nonneg (arr : grid) : 0 <= count_white arr.
Proof.
  unfold count_white, eq_scalar.
  rewrite count_true_map_grid, grid_sum_concat.
  induction (concat arr) as [|v l IH]; [simpl; lia|].
  simpl map. rewrite sum_cons.
  assert (0 <= indicator (v =? 255)) by (destruct (v =? 255); simpl; lia).
  lia.
Qed.

Lemma on_add_table_cases (n_clicks t1 t2 : Z) (filename : option string)
    (text1 text2 : string) (rows : list result_row) :
  counts_shown text1 text2 ->
  on_add_table n_clicks filename t1 t2 text1 text2 (Some rows) = NoUpdate
  \/ exists r,
       row_consistent r
       /\ on_add_table n_clicks filename t1 t2 text1 text2 (Some rows)
          = Updated (rows ++ [r], rows ++ [r], false).
Proof.
  intros Hcounts. unfold on_add_table.
  destruct filename as [name|]; [|left; reflexivity].
  destruct (String.eqb name "") eqn:Hname; [left; reflexivity|].
  destruct Hcounts as [[-> ->] | [c1 [c2 [Hc1 [Hc2 [-> ->]]]]]].
  - left. rewrite String.eqb_refl. reflexivity.
  - right. rewrite (count_text_not_dash c1 Hc1). cbn [orb].
    rewrite (count_text_roundtrip c1 Hc1), (count_text_roundtrip c2 Hc2).
    eexists. split; [|reflexivity].
    exists c1, c2. repeat split; assumption || reflexivity.
Qed.

Lemma on_apply_degenerate (n_clicks : Z) (original : grid)
    (crop : crop_coords) (kernel_size x0 x1 y0 y1 : Z) :
  crop_box crop (Z.of_nat (length original))
           (Z.of_nat (length (hd [] original))) = (x0, x1, y0, y1) ->
  x1 - x0 < 2 \/ y1 - y0 < 2 ->
  on_apply n_clicks (Some original) (Some crop) kernel_size = ([], NoUpdate).
Proof.
  intros Hbox Hsmall. unfold on_apply. rewrite Hbox.
  destruct ((x1 - x0 <? 2) || (y1 - y0 <? 2)) eqn:Htest; [reflexivity|].
  apply orb_false_iff in Htest. destruct Htest as [Hx Hy].
  apply Z.ltb_ge in Hx, Hy. lia.
Qed.

Lemma on_apply_cases (n_clicks : Z) (original : grid)
    (crop : option crop_coords) (kernel_size : Z) :
  gray_image original -> 1 <= kernel_size ->
  snd (on_apply n_clicks (Some original) crop kernel_size) = NoUpdate
  \/ exists out,
       snd (on_apply n_clicks (Some original) crop kernel_size) = Updated out
       /\ gray_image (store_adjusted out)
       /\ store_histogram out = compute_histogram (store_adjusted out)
       /\ t1_slider out = 128 /\ t2_slider out = 200.
Proof.
  intros [Horig [h [w [Hh [Hw Hshape]]]]] Hk.
  destruct crop as [crop|]; [|left; reflexivity].
  destruct (crop_box crop (Z.of_nat h) (Z.of_nat w)) as [[[x0 x1] y0] y1]
    eqn:Hbox.
  assert (Hdims : length original = h /\ length (hd [] original) = w).
  { destruct Hshape as [Hlen Hrows]. split; [exact Hlen|].
    destruct original as [|row0 rest]; [simpl in Hlen; lia|].
    inversion Hrows; assumption. }
  destruct Hdims as [Hlen Hwid].
  destruct (Z.lt_ge_cases (x1 - x0) 2) as [Hx|Hx];
    [|destruct (Z.lt_ge_cases (y1 - y0) 2) as [Hy|Hy]].
  - left. rewrite (on_apply_degenerate n_clicks original crop kernel_size
                     x0 x1 y0 y1); [reflexivity | | left; exact Hx].
    rewrite Hlen, Hwid. exact Hbox.
  - left. rewrite (on_apply_degenerate n_clicks original crop kernel_size
                     x0 x1 y0 y1); [reflexivity | | right; exact Hy].
    rewrite Hlen, Hwid. exact Hbox.
  - right.
    destruct (on_apply_run n_clicks original h w crop kernel_size
                x0 x1 y0 y1 Horig Hshape Hbox Hx Hy Hk)
      as [filtered [r [out [Hf8 [Hfshape [Hrun [Hadj [Hhist [_
           [_ [Ht1 Ht2]]]]]]]]]]].
    exists out. rewrite Hrun. split; [reflexivity|].
    split; [|repeat split; assumption].
    rewrite Hadj. split.
    + destruct (skewed r); [|exact Hf8].
      apply level_adjustment_keeps_uint8, Hf8.
    + exists (Z.to_nat (y1 - y0)), (Z.to_nat (x1 - x0)).
      split; [lia|]. split; [lia|].
      destruct (skewed r); [|exact Hfshape].
      apply level_adjustment_keeps_shape, Hfshape.
Qed.

Lemma on_apply_stored_cases (n_clicks : Z) (original : option grid)
    (crop : option crop_vals) (kernel_size : Z) :
  (forall arr, original = Some arr -> gray_image arr) -> 1 <= kernel_size ->
  forall out,
    snd (on_apply_stored n_clicks original crop kernel_size) = Updated out ->
    gray_image (store_adjusted out)
    /\ store_histogram out = compute_histogram (store_adjusted out).
Proof.
  intros Horig Hk out. unfold on_apply_stored.
  assert (Hgo : forall c,
            snd (on_apply n_clicks original c kernel_size) = Updated out ->
            gray_image (store_adjusted out)
            /\ store_histogram out = compute_histogram (store_adjusted out)).
  { intros c Hrun. destruct original as [arr|]; [|discriminate].
    destruct (on_apply_cases n_clicks arr c kernel_size (Horig arr eq_refl) Hk)
      as [Hno | [out' [Hup [Hgray [Hhist _]]]]].
    - rewrite Hno in Hrun. discriminate.
    - rewrite Hup in Hrun. injection Hrun as <-. split; assumption. }
  destruct crop as [vals|]; [|apply Hgo].
  destruct (crop_of_vals vals); [apply Hgo|].
  destruct original; discriminate.
Qed.

Section Application.

Variable decode_upload_to_gray : string -> option grid.

Lemma page_invariant_initial : page_invariant initial_state.
Proof.
  constructor; simpl.
  - auto.
  - split; reflexivity.
  - left. split; reflexivity.
  - exists []. repeat split; auto.
Qed.

Lemma page_invariant_step (s : app_state) (e : event) :
  page_invariant s -> page_invariant (step decode_upload_to_gray s e).
Proof.
  intros [Hkernel Hbutton Hcounts Htable]. destruct e as
    [contents filename | relayout_data | choice | n | t1 t2 | n | n];
    cbn [step].
  - destruct (on_upload decode_upload_to_gray contents filename) as [| |o] eqn:Hup;
      try (constructor; assumption).
    unfold on_upload in Hup. destruct contents as [c|]; [|discriminate].
    destruct (decode_upload_to_gray c); [|discriminate].
    injection Hup as <-. constructor; simpl; try assumption.
    split; reflexivity.
  - destruct (on_relayout relayout_data) as [| |[crop disabled]] eqn:Hrel;
      try (constructor; assumption).
    constructor; simpl; try assumption.
    apply (on_relayout_button relayout_data), Hrel.
  - constructor; simpl; try assumption.
    destruct choice; simpl; auto.
  - destruct (snd (on_apply_stored n (store_original_data s)
                     (store_crop_coords_data s) (kernel_size_value s)));
      constructor; simpl; assumption.
  - destruct (on_threshold t1 t2 (store_adjusted_data s)
                (store_histogram_data s)) as [view|] eqn:Hview;
      [|constructor; simpl; assumption].
    unfold on_threshold in Hview.
    destruct (store_adjusted_data s) as [adjusted|]; [|discriminate].
    destruct (store_histogram_data s) as [[|b bins]|]; try discriminate.
    injection Hview as <-. cbn [count_texts white_count_1 white_count_2].
    constructor; simpl; try assumption.
    right. eexists _, _. repeat split; try reflexivity;
      apply count_white_nonneg.
  - destruct Htable as [rows [Hrows [Hcons Hexport]]]. rewrite Hrows.
    destruct (on_add_table_cases n (t1_slider_value s) (t2_slider_value s)
                (store_filename_data s) (white_count_1_children s)
                (white_count_2_children s) rows Hcounts)
      as [-> | [r [Hr ->]]].
    + constructor; try assumption. exists rows. auto.
    + constructor; simpl; try assumption.
      exists (rows ++ [r]). split; [reflexivity|]. split.
      * apply Forall_app. split; [exact Hcons | constructor; [exact Hr|constructor]].
      * split; [discriminate|]. intros Hnil.
        apply app_eq_nil in Hnil. destruct Hnil as [_ Hnil]. discriminate.
  - constructor; assumption.
Qed.

Lemma reachable_page_invariant (s : app_state) :
  reachable decode_upload_to_gray s -> page_invariant s.
Proof.
  induction 1 as [|s e _ IH];
    [apply page_invariant_initial | apply page_invariant_step, IH].
Qed.

Hypothesis decode_gray :
  forall contents arr,
    decode_upload_to_gray contents = Some arr -> gray_image arr.

Lemma image_invariant_initial : image_invariant initial_state.
Proof.
  constructor; simpl; [discriminate | left; split; reflexivity].
Qed.

Lemma image_invariant_step (s : app_state) (e : event) :
  page_invariant s -> image_invariant s ->
  image_invariant (step decode_upload_to_gray s e).
Proof.
  intros Hpage [Horig Hadj]. destruct e as
    [contents filename | relayout_data | choice | n | t1 t2 | n | n];
    cbn [step].
  - destruct (on_upload decode_upload_to_gray contents filename) as [| |o] eqn:Hup;
      try (constructor; assumption).
    unfold on_upload in Hup. destruct contents as [c|]; [|discriminate].
    destruct (decode_upload_to_gray c) as [arr|] eqn:Hdec; [|discriminate].
    injection Hup as <-. constructor; simpl; [|exact Hadj].
    intros arr' [= <-]. exact (decode_gray c arr Hdec).
  - destruct (on_relayout relayout_data) as [| |[crop disabled]];
      constructor; assumption.
  - constructor; assumption.
  - destruct (snd (on_apply_stored n (store_original_data s)
                     (store_crop_coords_data s) (kernel_size_value s)))
      as [| |o] eqn:Hrun; try (constructor; assumption).
    constructor; simpl; [exact Horig|]. right.
    destruct (on_apply_stored_cases n (store_original_data s)
                (store_crop_coords_data s) (kernel_size_value s))
      with (out := o) as [Hgray Hhist]; try assumption.
    { destruct (inv_kernel s Hpage) as [-> | [-> | ->]]; lia. }
    exists (store_adjusted o). rewrite Hhist. auto.
  - destruct (on_threshold t1 t2 (store_adjusted_data s)
                (store_histogram_data s)) as [view|].
    + destruct (count_texts view) as [[text1 text2] text_diff].
      constructor; assumption.
    + constructor; assumption.
  - destruct (on_add_table n (store_filename_data s) (t1_slider_value s)
                (t2_slider_value s) (white_count_1_children s)
                (white_count_2_children s) (store_table_data s))
      as [| |[[shown table] disabled]]; constructor; assumption.
  - constructor; assumption.
Qed.

Lemma reachable_image_invariant (s : app_state) :
  reachable decode_upload_to_gray s -> image_invariant s.
Proof.
  induction 1 as [|s e Hreach IH].
  - apply image_invariant_initial.
  - apply image_invariant_step; [|exact IH].
    apply reachable_page_invariant, Hreach.
Qed.

End Application.

(** X22: in every state that the page reaches from its layout by uploads,
    rectangle events, kernel choices, clicks and slider moves, the apply
    button is disabled exactly when no rectangle is stored. *)
Theorem page_apply_button (decode : string -> option grid)
    (s : app_state) :
  reachable decode s ->
  (apply_btn_disabled s = true <-> store_crop_coords_data s = None).
Proof.
  intros Hreach.
  exact (inv_button s (reachable_page_invariant decode s Hreach)).
Qed.

Lemma page_apply_button_witness :
  let decode := fun _ : string => @None grid in
  let s :=
    step decode initial_state
      (Relayout (Some [("shapes"%string, JShapes [mk_crop 0 0 3 3])])) in
  apply_btn_disabled s = true <-> store_crop_coords_data s = None.
Proof.
  intros decode s. apply (page_apply_button decode).
  apply reachable_step, reachable_initial.
Defined.


(** X23: in every state that the page reaches, [on_add_table] on the stored
    file name, the slider values, the two count texts and the stored table
    raises nothing: the texts it reads with [int] are the placeholder or
    texts of counts. *)
Theorem page_add_table_never_raises
    (decode : string -> option grid) (s : app_state) :
  reachable decode s ->
  forall n_clicks,
    on_add_table n_clicks (store_filename_data s)
      (t1_slider_value s) (t2_slider_value s)
      (white_count_1_children s) (white_count_2_children s)
      (store_table_data s) <> Raised.
Proof.
  intros Hreach n_clicks.
  destruct (reachable_page_invariant decode s Hreach)
    as [_ _ Hcounts [rows [Hrows _]]].
  rewrite Hrows.
  destruct (on_add_table_cases n_clicks (t1_slider_value s)
              (t2_slider_value s) (store_filename_data s)
              (white_count_1_children s) (white_count_2_children s)
              rows Hcounts) as [-> | [r [_ ->]]]; discriminate.
Qed.

Lemma page_add_table_never_raises_witness :
  let decode :=
    fun _ : string => Some [[10; 20; 30]; [40; 50; 60]; [70; 80; 90]] in
  let s :=
    step decode
      (step decode
         (step decode
            (step decode initial_state
               (Upload (Some "png"%string) (Some "a.png"%string)))
            (Relayout (Some [("shapes"%string, JShapes [mk_crop 0 0 3 3])])))
         (ClickApply 1))
      (MoveSliders 100 150) in
  on_add_table 1 (store_filename_data s)
    (t1_slider_value s) (t2_slider_value s)
    (white_count_1_children s) (white_count_2_children s)
    (store_table_data s) <> Raised.
Proof.
  intros decode s. apply (page_add_table_never_raises decode s).
  repeat apply reachable_step. apply reachable_initial.
Defined.


(** X24: in every state that the page reaches, the stored table is a list
    of rows in each of which the difference field is the text of the first
    count minus the second; the export button is disabled exactly when the
    table is empty, and when it is enabled [on_export] returns a file. *)
Theorem page_table_exportable (decode : string -> option grid)
    (s : app_state) :
  reachable decode s ->
  exists rows,
    store_table_data s = Some rows
    /\ Forall row_consistent rows
    /\ (export_btn_disabled s = true <-> rows = [])
    /\ (export_btn_disabled s = false ->
        forall n_clicks,
          exists content,
            on_export n_clicks (store_table_data s) = Updated content).
Proof.
  intros Hreach.
  destruct (reachable_page_invariant decode s Hreach)
    as [_ _ _ [rows [Hrows [Hcons Hexport]]]].
  exists rows. repeat split; try assumption; try apply Hexport.
  intros Henabled n_clicks. rewrite Hrows.
  destruct rows as [|r rows].
  - destruct Hexport as [_ Hnil]. rewrite (Hnil eq_refl) in Henabled.
    discriminate.
  - eexists. reflexivity.
Qed.

Lemma page_table_exportable_witness :
  let decode :=
    fun _ : string => Some [[10; 20; 30]; [40; 50; 60]; [70; 80; 90]] in
  let s :=
    step decode
      (step decode
         (step decode
            (step decode
               (step decode initial_state
                  (Upload (Some "png"%string) (Some "a.png"%string)))
               (Relayout
                  (Some [("shapes"%string, JShapes [mk_crop 0 0 3 3])])))
            (ClickApply 1))
         (MoveSliders 100 150))
      (ClickAddTable 1) in
  exists rows,
    store_table_data s = Some rows
    /\ Forall row_consistent rows
    /\ (export_btn_disabled s = true <-> rows = [])
    /\ (export_btn_disabled s = false ->
        forall n_clicks,
          exists content,
            on_export n_clicks (store_table_data s) = Updated content).
Proof.
  intros decode s. apply (page_table_exportable decode).
  repeat apply reachable_step. apply reachable_initial.
Defined.


(** X25: when the decoder returns eight-bit images with at least one pixel,
    in every state that the page reaches the adjusted image and the
    histogram are both absent, or both stored, the image an eight-bit grid
    with at least one pixel and the histogram the histogram of that image. *)
Theorem page_histogram_of_adjusted
    (decode : string -> option grid) (s : app_state) :
  (forall contents arr,
     decode contents = Some arr -> gray_image arr) ->
  reachable decode s ->
  (store_adjusted_data s = None /\ store_histogram_data s = None)
  \/ exists adjusted,
       store_adjusted_data s = Some adjusted
       /\ store_histogram_data s = Some (compute_histogram adjusted)
       /\ gray_image adjusted.
Proof.
  intros decode_gray Hreach.
  exact (inv_adjusted s
           (reachable_image_invariant decode decode_gray s Hreach)).
Qed.

Lemma page_histogram_of_adjusted_witness :
  let decode :=
    fun _ : string => Some [[10; 20; 30]; [40; 50; 60]; [70; 80; 90]] in
  let s :=
    step decode
      (step decode
         (step decode initial_state
            (Upload (Some "png"%string) (Some "a.png"%string)))
         (Relayout (Some [("shapes"%string, JShapes [mk_crop 0 0 3 3])])))
      (ClickApply 1) in
  (store_adjusted_data s = None /\ store_histogram_data s = None)
  \/ exists adjusted,
       store_adjusted_data s = Some adjusted
       /\ store_histogram_data s = Some (compute_histogram adjusted)
       /\ gray_image adjusted.
Proof.
  intros decode s. apply (page_histogram_of_adjusted decode).
  - intros contents arr [= <-]. split.
    + unfold uint8_grid, uint8; repeat constructor; lia.
    + exists 3%nat, 3%nat. split; [lia|]. split; [lia|].
      split; [reflexivity | repeat constructor].
  - repeat apply reachable_step. apply reachable_initial.
Defined.


(** X26: when the decoder returns eight-bit images with at least one pixel,
    in every state that the page reaches [on_apply] on the stored image and
    the chosen kernel size raises nothing, whatever rectangle of numbers it
    is given. *)
Theorem page_apply_never_raises (decode : string -> option grid)
    (s : app_state) :
  (forall contents arr,
     decode contents = Some arr -> gray_image arr) ->
  reachable decode s ->
  forall n_clicks crop,
    snd (on_apply n_clicks (store_original_data s) crop (kernel_size_value s))
    <> Raised.
Proof.
  intros decode_gray Hreach n_clicks crop.
  pose proof (reachable_page_invariant decode s Hreach) as Hpage.
  pose proof (reachable_image_invariant decode decode_gray s Hreach)
    as Himage.
  destruct (store_original_data s) as [arr|] eqn:Harr; [|discriminate].
  destruct (on_apply_cases n_clicks arr crop (kernel_size_value s))
    as [-> | [out [-> _]]]; try discriminate.
  - apply (inv_original s Himage), Harr.
  - destruct (inv_kernel s Hpage) as [-> | [-> | ->]]; lia.
Qed.

Lemma page_apply_never_raises_witness :
  let decode :=
    fun _ : string => Some [[10; 20; 30]; [40; 50; 60]; [70; 80; 90]] in
  let s :=
    step decode
      (step decode initial_state
         (Upload (Some "png"%string) (Some "a.png"%string)))
      (SelectKernel Kernel5) in
  snd (on_apply 1 (store_original_data s) (Some (mk_crop 0 0 3 3))
         (kernel_size_value s))
  <> Raised.
Proof.
  intros decode s. apply (page_apply_never_raises decode s).
  - intros contents arr [= <-]. split.
    + unfold uint8_grid, uint8; repeat constructor; lia.
    + exists 3%nat, 3%nat. split; [lia|]. split; [lia|].
      split; [reflexivity | repeat constructor].
  - repeat apply reachable_step. apply reachable_initial.
Defined.

